(** * Workflow execution engine of the dataset crawler

    Shallow embedding of [app/advanced_crawler.py] ([AdvancedCrawler]) and of
    the pagination controller of [app/core/crawler.py] ([PaginatedCrawler]).

    Browser calls go through a small driver monad [Drv]: a tree whose [Call]
    nodes are Playwright calls; an oracle (any function of the history of
    calls so far) answers each call, or makes it raise.  Python exceptions
    are [Throw] leaves, [try]/[except] is [catch], [try]/[finally] is
    [finally].  Per-item dictionaries are stdpp [gmap]s. *)

From stdpp Require Import base list strings gmap.
From Stdlib Require Import String Ascii ZArith.
From Stdlib Require QArith.

Open Scope string_scope.
Open Scope nat_scope.

(* ------------------------------------------------------------------ *)
(** ** Python string helpers *)

Module Py.

(** [s.startswith(p)] *)
Definition startswith (p s : string) : bool := String.prefix p s.

(** [s.endswith(p)] *)
Definition endswith (p s : string) : bool :=
  (String.length p <=? String.length s)%nat &&
  String.eqb (substring (String.length s - String.length p) (String.length p) s) p.

(** [t in s] for strings: substring test *)
Fixpoint contains (s t : string) : bool :=
  String.prefix t s ||
  match s with
  | EmptyString => false
  | String _ r => contains r t
  end.

(** [c in s] for a single character *)
Fixpoint has_char (c : ascii) (s : string) : bool :=
  match s with
  | EmptyString => false
  | String d r => Ascii.eqb c d || has_char c r
  end.

(** [s.count(c) ] for a single character *)
Fixpoint count_char (c : ascii) (s : string) : nat :=
  match s with
  | EmptyString => 0
  | String d r => (if Ascii.eqb c d then 1 else 0) + count_char c r
  end.

(** [s[1:]] *)
Definition drop1 (s : string) : string :=
  match s with EmptyString => EmptyString | String _ r => r end.

(** characters stripped by [str.strip()] (ASCII part of [str.isspace]) *)
Definition is_space (c : ascii) : bool :=
  let n := nat_of_ascii c in
  ((9 <=? n) && (n <=? 13)) || ((28 <=? n) && (n <=? 32)).

Fixpoint lstrip_by (p : ascii -> bool) (s : string) : string :=
  match s with
  | EmptyString => EmptyString
  | String c r => if p c then lstrip_by p r else s
  end.

Fixpoint rstrip_by (p : ascii -> bool) (s : string) : string :=
  match s with
  | EmptyString => EmptyString
  | String c r =>
      let r' := rstrip_by p r in
      if String.eqb r' EmptyString && p c then EmptyString else String c r'
  end.

(** [s.strip()] *)
Definition strip (s : string) : string := rstrip_by is_space (lstrip_by is_space s).

(** [s.rstrip('/')] *)
Definition rstrip_slash (s : string) : string := rstrip_by (Ascii.eqb "/") s.

(** [s.lower()] (ASCII letters) *)
Definition lower_char (c : ascii) : ascii :=
  let n := nat_of_ascii c in
  if (65 <=? n) && (n <=? 90) then ascii_of_nat (n + 32) else c.

Fixpoint lower (s : string) : string :=
  match s with
  | EmptyString => EmptyString
  | String c r => String (lower_char c) (lower r)
  end.

(** [len(s.split('/'))] *)
Definition split_len (c : ascii) (s : string) : nat := S (count_char c s).

(** truthiness of an [Optional[str]] *)
Definition truthy (o : option string) : bool :=
  match o with Some s => negb (String.eqb s "") | None => false end.

(** prefix up to (excluding) the first character satisfying [p] *)
Fixpoint take_until (p : ascii -> bool) (s : string) : string :=
  match s with
  | EmptyString => EmptyString
  | String c r => if p c then EmptyString else String c (take_until p r)
  end.

Fixpoint drop_until (p : ascii -> bool) (s : string) : string :=
  match s with
  | EmptyString => EmptyString
  | String c r => if p c then s else drop_until p r
  end.

(** [str(n)] for a natural number *)
Fixpoint digits_of (fuel n : nat) (acc : string) : string :=
  match fuel with
  | O => acc
  | S f =>
      let acc' := String (ascii_of_nat (48 + n mod 10)) acc in
      if (n <? 10)%nat then acc' else digits_of f (n / 10) acc'
  end.

Definition nat_str (n : nat) : string := digits_of (S n) n "".

End Py.

(* ------------------------------------------------------------------ *)
(** ** [urllib.parse.urlparse] (the parts the crawler reads)

    Follows CPython's [urlsplit]/[urlparse]: leading C0/space stripped,
    tab/CR/LF removed, scheme split at the first [':'] when it is made of
    scheme characters and starts with a letter, netloc after ["//"] up to
    the first ['/'], ['?'] or ['#'], fragment and query cut, and the
    parameters of the last path segment cut for schemes in [uses_params].
    An unbalanced bracket in the netloc raises [ValueError] ([None]). *)

Module Url.
Import Py.

Record parts := mk_parts { scheme : string; netloc : string; path : string }.

Definition c0_or_space (c : ascii) : bool := (nat_of_ascii c <=? 32)%nat.

Definition unsafe_byte (c : ascii) : bool :=
  Ascii.eqb c "009"%char || Ascii.eqb c "013"%char || Ascii.eqb c "010"%char.

Fixpoint remove_unsafe (s : string) : string :=
  match s with
  | EmptyString => EmptyString
  | String c r => if unsafe_byte c then remove_unsafe r else String c (remove_unsafe r)
  end.

Definition is_alpha (c : ascii) : bool :=
  let n := nat_of_ascii c in ((65 <=? n) && (n <=? 90)) || ((97 <=? n) && (n <=? 122)).

Definition is_digit (c : ascii) : bool :=
  let n := nat_of_ascii c in (48 <=? n) && (n <=? 57).

Definition scheme_char (c : ascii) : bool :=
  is_alpha c || is_digit c || Ascii.eqb c "+" || Ascii.eqb c "-" || Ascii.eqb c ".".

Fixpoint all_chars (p : ascii -> bool) (s : string) : bool :=
  match s with EmptyString => true | String c r => p c && all_chars p r end.

Definition is_colon (c : ascii) : bool := Ascii.eqb c ":".

(** scheme split: [(scheme, rest)] *)
Definition split_scheme (url : string) : string * string :=
  let sch := take_until is_colon url in
  match url with
  | String c0 _ =>
      if has_char ":" url && negb (String.eqb sch "") && is_alpha c0 && all_chars scheme_char sch
      then (lower sch, drop1 (drop_until is_colon url))
      else ("", url)
  | EmptyString => ("", url)
  end.

Definition netloc_delim (c : ascii) : bool :=
  Ascii.eqb c "/" || Ascii.eqb c "?" || Ascii.eqb c "#".

Definition uses_params : list string :=
  [""; "ftp"; "hdl"; "prospero"; "http"; "imap"; "https"; "shttp"; "rtsp";
   "rtsps"; "rtspu"; "sip"; "sips"; "mms"; "sftp"; "tel"].

(** [_splitparams]: cut at the first [';'] after the last ['/'] *)
Fixpoint split_params_last (s : string) : string :=
  (* the path with the parameters of its last segment removed *)
  match s with
  | EmptyString => EmptyString
  | String c r =>
      if has_char "/" r then String c (split_params_last r)
      else if Ascii.eqb c "/" then String c (take_until (Ascii.eqb ";") r)
      else take_until (Ascii.eqb ";") s
  end.

Definition split_params (s : string) : string :=
  if has_char "/" s then split_params_last s else take_until (Ascii.eqb ";") s.

Definition urlparse (url0 : string) : option parts :=
  let url1 := remove_unsafe (lstrip_by c0_or_space url0) in
  let '(sch, url2) := split_scheme url1 in
  let '(net, url3) :=
    if startswith "//" url2
    then let r := substring 2 (String.length url2 - 2) url2 in
         (take_until netloc_delim r, drop_until netloc_delim r)
    else ("", url2) in
  if (has_char "[" net && negb (has_char "]" net)) ||
     (has_char "]" net && negb (has_char "[" net))
  then None
  else
    let url4 := take_until (Ascii.eqb "?") (take_until (Ascii.eqb "#") url3) in
    let p := if existsb (String.eqb sch) uses_params && has_char ";" url4
             then split_params url4 else url4 in
    Some (mk_parts sch net p).

(** [.hostname] of a parse result: the netloc after the last ['@'],
    without port (or inside the brackets), lower-cased *)
Fixpoint after_last (c : ascii) (s : string) : string :=
  match s with
  | EmptyString => EmptyString
  | String d r =>
      if has_char c r then after_last c r
      else if Ascii.eqb c d then r else s
  end.

Definition hostname (p : parts) : string :=
  let hostinfo := after_last "@" (netloc p) in
  if has_char "[" hostinfo
  then lower (take_until (Ascii.eqb "]") (drop1 (drop_until (Ascii.eqb "[") hostinfo)))
  else lower (take_until is_colon hostinfo).

End Url.

(* ------------------------------------------------------------------ *)
(** ** Field scope resolver: [AdvancedCrawler._is_field_for_current_page]

    [None] is the [ValueError] raised by [urlparse]. *)

Definition is_field_for_current_page (field_page_url current_url : string) : option bool :=
  match Url.urlparse field_page_url, Url.urlparse current_url with
  | Some fp, Some cp =>
      if negb (String.eqb (Url.netloc fp) (Url.netloc cp)) then Some false
      else
        let field_path := Py.rstrip_slash (Url.path fp) in
        let current_path := Py.rstrip_slash (Url.path cp) in
        if String.eqb field_path current_path then Some true
        else if (Py.split_len "/" current_path <? Py.split_len "/" field_path)%nat
        then Some false
        else Some (Py.startswith field_path current_path)
  | _, _ => None
  end.

(* ------------------------------------------------------------------ *)
(** ** Data model ([app/models.py], [ExtractionResult]) *)

(** [verification_attributes] is not read by the engine and is left out. *)
Record ElementSelection := mk_selection {
  name : string;
  selector : string;
  element_type : string;      (* data_field | items_container | pagination | navigation *)
  description : string;
  extraction_type : string;   (* text | href | src | attribute *)
  attribute_name : option string;
  workflow_action : option string;
  original_content : option string;
  page_url : option string
}.

Record WorkflowStep := mk_step {
  step_id : string;
  action : string;            (* click | extract | open_new_tab *)
  target_selector : string;
  step_description : string;
  extract_fields : option (list string);
  wait_condition : string;
  wait_selector : option string
}.

Record CrawlerConfiguration := mk_config {
  config_name : string;
  base_url : string;
  selections : list ElementSelection;
  workflows : list WorkflowStep;
  pagination_config : option ElementSelection;
  max_pages : option Z;
  delay_ms : Z
}.

(** a Python dict [Dict[str, Optional[str]]] *)
Abbreviation Dict := (gmap string (option string)).

Record ExtractionResult := mk_result {
  data : Dict;
  source_url : string;
  extraction_time : string;
  workflow_path : list string
}.

(* ------------------------------------------------------------------ *)
(** ** The driver monad *)

(** Element and page handles are numbers; the main page is page [0]. *)
Definition main_page : nat := 0.

Inductive Op : Type :=
  | PGoto (pg : nat) (url : string)            (* page.goto *)
  | PWaitLoad (pg : nat) (state : string)      (* page.wait_for_load_state *)
  | PWaitSelector (pg : nat) (sel : string)    (* page.wait_for_selector *)
  | PQueryAll (pg : nat) (sel : string)        (* page.query_selector_all *)
  | PQuery (pg : nat) (sel : string)           (* page.query_selector *)
  | PUrl (pg : nat)                            (* page.url *)
  | PClose (pg : nat)                          (* page.close *)
  | NewPage                                    (* context.new_page *)
  | EQuery (el : nat) (sel : string)           (* element.query_selector *)
  | EText (el : nat)                           (* element.text_content *)
  | EAttr (el : nat) (attr : string)           (* element.get_attribute *)
  | EVisible (el : nat)                        (* element.is_visible *)
  | EEval (el : nat) (js : string)             (* element.evaluate *)
  | EClick (el : nat)                          (* element.click *)
  | Sleep (ms : Z)                             (* asyncio.sleep *)
  | Now                                        (* datetime.now().isoformat() *)
  | HistAppend (url : string) (page : Z).      (* navigation_history.append *)

Inductive Reply : Type :=
  | RUnit
  | RBool (b : bool)
  | RStr (s : option string)
  | RHandle (h : option nat)
  | RHandles (hs : list nat).

(** Python exceptions that can reach a handler *)
Inductive Exn : Type :=
  | DriverError | ValueError | TypeError | AttributeError | IndexError.

Inductive Drv (A : Type) : Type :=
  | Ret (a : A)
  | Throw (e : Exn)
  | Call (o : Op) (k : option Reply -> Drv A)
  | Stall.                                     (* loop fuel exhausted *)
Arguments Ret {A} a.
Arguments Throw {A} e.
Arguments Call {A} o k.
Arguments Stall {A}.

Fixpoint drv_bind {A B} (m : Drv A) (f : A -> Drv B) : Drv B :=
  match m with
  | Ret a => f a
  | Throw e => Throw e
  | Call o k => Call o (fun r => drv_bind (k r) f)
  | Stall => Stall
  end.

Global Instance drv_ret : MRet Drv := @Ret.
Global Instance drv_mbind : MBind Drv := fun A B f m => drv_bind m f.

(** [try: m except Exception as e: h e] *)
Fixpoint catch {A} (m : Drv A) (h : Exn -> Drv A) : Drv A :=
  match m with
  | Ret a => Ret a
  | Throw e => h e
  | Call o k => Call o (fun r => catch (k r) h)
  | Stall => Stall
  end.

(** [try: m finally: c] *)
Definition finally {A} (m : Drv A) (c : Drv unit) : Drv A :=
  r ← catch (a ← m; Ret (inl a)) (fun e => Ret (inr e));
  c;;
  match r with inl a => Ret a | inr e => Throw e end.

(** A call answered by [None] raised; a reply of the wrong shape counts as
    a driver error too. *)
Definition call_unit (o : Op) : Drv unit :=
  Call o (fun r => match r with Some _ => Ret tt | None => Throw DriverError end).
Definition call_str (o : Op) : Drv (option string) :=
  Call o (fun r => match r with Some (RStr s) => Ret s | _ => Throw DriverError end).
Definition call_bool (o : Op) : Drv bool :=
  Call o (fun r => match r with Some (RBool b) => Ret b | _ => Throw DriverError end).
Definition call_handle (o : Op) : Drv (option nat) :=
  Call o (fun r => match r with Some (RHandle h) => Ret h | _ => Throw DriverError end).
Definition call_handles (o : Op) : Drv (list nat) :=
  Call o (fun r => match r with Some (RHandles hs) => Ret hs | _ => Throw DriverError end).
Definition call_page (o : Op) : Drv nat :=
  Call o (fun r => match r with Some (RHandle (Some p)) => Ret p | _ => Throw DriverError end).
(** [page.url] *)
Definition page_url_of (pg : nat) : Drv string :=
  Call (PUrl pg) (fun r => match r with Some (RStr (Some u)) => Ret u | _ => Throw DriverError end).
(** an update of the crawler's own state, which cannot fail *)
Definition record (o : Op) : Drv unit := Call o (fun _ => Ret tt).

Inductive Outcome (A : Type) : Type :=
  | Done (a : A) | Raised (e : Exn) | Stalled.
Arguments Done {A} a.
Arguments Raised {A} e.
Arguments Stalled {A}.

Definition Event : Type := (Op * option Reply)%type.

(** The browser: any function of the history of calls so far. *)
Definition Oracle : Type := list Event -> Op -> option Reply.

Fixpoint run {A} (orc : Oracle) (h : list Event) (m : Drv A) : list Event * Outcome A :=
  match m with
  | Ret a => ([], Done a)
  | Throw e => ([], Raised e)
  | Stall => ([], Stalled)
  | Call o k =>
      let r := orc h o in
      let p := run orc (h ++ [(o, r)]) (k r) in
      ((o, r) :: p.1, p.2)
  end.

(* ------------------------------------------------------------------ *)
(** ** [float(...)] on the strings a browser gives for [opacity]

    CPython's grammar for [float(str)]: surrounding whitespace, an optional
    sign, then [inf]/[infinity]/[nan] in any case, or a decimal with an
    optional fraction and exponent.  Values are exact rationals (digit
    group underscores and binary rounding are not modelled). *)

Module PyFloat.

Inductive t : Type := Fin (q : QArith_base.Q) | PInf | NInf | NaN.

Definition digit_val (c : ascii) : Z := Z.of_nat (nat_of_ascii c - 48).

Fixpoint read_digits (s : string) (v : Z) (n : nat) : Z * nat * string :=
  match s with
  | String c r => if Url.is_digit c then read_digits r (10 * v + digit_val c)%Z (S n) else (v, n, s)
  | EmptyString => (v, n, EmptyString)
  end.

Definition read_sign (s : string) : bool * string :=
  match s with
  | String "-" r => (true, r)
  | String "+" r => (false, r)
  | _ => (false, s)
  end.

Definition scale (m : Z) (k : Z) : QArith_base.Q :=
  if (0 <=? k)%Z then QArith_base.inject_Z (m * 10 ^ k)
  else QArith_base.Qmake m (Z.to_pos (10 ^ (- k))).

Definition parse_unsigned (s : string) : option QArith_base.Q :=
  let '(ip, ni, r1) := read_digits s 0%Z 0 in
  let '(m, nf, r2) :=
    match r1 with String "." r => read_digits r ip 0 | _ => (ip, 0, r1) end in
  if (ni + nf =? 0) then None else
  let ex :=
    match r2 with
    | EmptyString => Some 0%Z
    | String e r3 =>
        if Ascii.eqb e "e" || Ascii.eqb e "E" then
          let '(neg, r4) := read_sign r3 in
          let '(x, nx, r5) := read_digits r4 0%Z 0 in
          if (nx =? 0) || negb (String.eqb r5 "") then None
          else Some (if neg then (- x)%Z else x)
        else None
    end in
  match ex with
  | Some x => Some (scale m (x - Z.of_nat nf)%Z)
  | None => None
  end.

(** [float(s)]; [None] is the [ValueError] *)
Definition of_string (s0 : string) : option t :=
  let '(neg, body) := read_sign (Py.strip s0) in
  let lb := Py.lower body in
  if String.eqb lb "inf" || String.eqb lb "infinity" then Some (if neg then NInf else PInf)
  else if String.eqb lb "nan" then Some NaN
  else match parse_unsigned body with
       | Some q => Some (Fin (if neg then QArith_base.Qopp q else q))
       | None => None
       end.

(** [x < 0.1] *)
Definition lt_tenth (x : t) : bool :=
  match x with
  | Fin q => negb (QArith_base.Qle_bool (QArith_base.Qmake 1 10) q)
  | NInf => true
  | PInf | NaN => false
  end.

End PyFloat.

(* ------------------------------------------------------------------ *)
(** ** [AdvancedCrawler] *)

Definition opt_str_eqb (o : option string) (s : string) : bool :=
  match o with Some x => String.eqb x s | None => false end.

Definition disabled_classes : list string :=
  ["disabled"; "btn-disabled"; "inactive"; "not-clickable"; "btn-inactive"].

Definition pointer_events_js : string := "el => getComputedStyle(el).pointerEvents".
Definition opacity_js : string := "el => getComputedStyle(el).opacity".

(** [float(opacity)] on the value [evaluate] returned *)
Definition py_float (v : option string) : Drv PyFloat.t :=
  match v with
  | None => Throw TypeError
  | Some s => match PyFloat.of_string s with Some f => Ret f | None => Throw ValueError end
  end.

(** [_is_element_clickable] (the same code as [PaginatedCrawler._is_element_clickable]) *)
Definition is_element_clickable (el : nat) : Drv bool :=
  catch
    (is_disabled ← call_str (EAttr el "disabled");
     if is_Some_dec is_disabled then Ret false else
     aria_disabled ← call_str (EAttr el "aria-disabled");
     if opt_str_eqb aria_disabled "true" then Ret false else
     cls ← call_str (EAttr el "class");
     let class_name := match cls with Some c => c | None => "" end in
     if existsb (Py.contains (Py.lower class_name)) disabled_classes then Ret false else
     is_visible ← call_bool (EVisible el);
     if negb is_visible then Ret false else
     pointer_events ← call_str (EEval el pointer_events_js);
     opacity ← call_str (EEval el opacity_js);
     if opt_str_eqb pointer_events "none" then Ret false else
     f ← py_float opacity;
     if PyFloat.lt_tenth f then Ret false else
     Ret true)
    (fun _ => Ret false).

(** The clickability check as the specification words it: the six checks
    made one after the other, each returning [False] at once, and any
    error giving [False]. *)
Definition clickable_by_spec (el : nat) : Drv bool :=
  catch
    (disabled ← call_str (EAttr el "disabled");
     if is_Some_dec disabled then Ret false else
     aria_disabled ← call_str (EAttr el "aria-disabled");
     if opt_str_eqb aria_disabled "true" then Ret false else
     cls ← call_str (EAttr el "class");
     if existsb (Py.contains (Py.lower (match cls with Some c => c | None => "" end)))
                disabled_classes then Ret false else
     visible ← call_bool (EVisible el);
     if negb visible then Ret false else
     pointer_events ← call_str (EEval el pointer_events_js);
     if opt_str_eqb pointer_events "none" then Ret false else
     opacity ← call_str (EEval el opacity_js);
     f ← py_float opacity;
     if PyFloat.lt_tenth f then Ret false else Ret true)
    (fun _ => Ret false).

Section Crawler.

(** [self.config] *)
Variable config : CrawlerConfiguration.

(** [_find_selection_by_name] *)
Definition find_selection_by_name (n : string) : option ElementSelection :=
  find (fun s => String.eqb (name s) n) (selections config).

(** [_get_items_selector] *)
Definition get_items_selector : option ElementSelection :=
  find (fun s => String.eqb (element_type s) "items_container") (selections config).

(** [_extract_element_value] *)
Definition extract_element_value (el : nat) (s : ElementSelection) : Drv (option string) :=
  if String.eqb (extraction_type s) "text" then call_str (EText el)
  else if String.eqb (extraction_type s) "href" then call_str (EAttr el "href")
  else if String.eqb (extraction_type s) "src" then call_str (EAttr el "src")
  else match attribute_name s with
       | Some a => if String.eqb (extraction_type s) "attribute" && Py.truthy (Some a)
                   then call_str (EAttr el a) else call_str (EText el)
       | None => call_str (EText el)
       end.

(** The scope check, raising [ValueError] where [urlparse] does *)
Definition field_for_current_page (fpu cur : string) : Drv bool :=
  match is_field_for_current_page fpu cur with
  | Some b => Ret b
  | None => Throw ValueError
  end.

(** loop body of [_extract_item_data] over [self.config.selections] *)
Fixpoint extract_item_fields (item : nat) (current_url : string)
    (sels : list ElementSelection) (item_data : Dict) : Drv Dict :=
  match sels with
  | [] => Ret item_data
  | s :: rest =>
      if negb (String.eqb (element_type s) "data_field")
      then extract_item_fields item current_url rest item_data
      else
        belongs ← (match page_url s with
                   | Some fpu => if Py.truthy (Some fpu)
                                 then field_for_current_page fpu current_url else Ret true
                   | None => Ret true
                   end);
        if negb belongs then extract_item_fields item current_url rest item_data
        else
          value ← catch (element ← call_handle (EQuery item (selector s));
                         match element with
                         | Some el => extract_element_value el s
                         | None => Ret None
                         end)
                        (fun _ => Ret None);
          extract_item_fields item current_url rest (<[name s := value]> item_data)
  end.

(** [_extract_item_data] *)
Definition extract_item_data (item : nat) : Drv Dict :=
  current_url ← page_url_of main_page;
  extract_item_fields item current_url (selections config) ∅.

(** The per-field loop shared by the workflow handlers: [query sel] is the
    call that looks the field up (on the main page, under the n-th item, or
    on the new tab).  A name with no selection adds nothing. *)
Fixpoint extract_workflow_fields (query : string -> Op) (fields : list string)
    (extracted : Dict) : Drv Dict :=
  match fields with
  | [] => Ret extracted
  | f :: rest =>
      extracted' ←
        catch (match find_selection_by_name f with
               | Some s =>
                   element ← call_handle (query (selector s));
                   match element with
                   | Some el => value ← extract_element_value el s; Ret (<[f := value]> extracted)
                   | None => Ret (<[f := None]> extracted)
                   end
               | None => Ret extracted            (* logger.warning only *)
               end)
              (fun _ => Ret (<[f := None]> extracted));
      extract_workflow_fields query rest extracted'
  end.

(** [if workflow.extract_fields: for field_name in ...] *)
Definition extract_fields_of (query : string -> Op) (wf : WorkflowStep) : Drv Dict :=
  match extract_fields wf with
  | Some fs => extract_workflow_fields query fs ∅
  | None => Ret ∅
  end.

(** [f"({items_selector.selector}):nth-of-type({item_index + 1})"] *)
Definition nth_item_selector (its : ElementSelection) (i : nat) : string :=
  "(" ++ selector its ++ "):nth-of-type(" ++ Py.nat_str (S i) ++ ")".

(** The return to [original_url]: [goto] then [wait_for_load_state] *)
Definition navigate_back (original_url : string) : Drv unit :=
  call_unit (PGoto main_page original_url);;
  call_unit (PWaitLoad main_page "networkidle").

(** The click / wait / extract / return block of both click handlers
    (lines 293-343 and 471-520 of the source, which are the same code) *)
Definition click_navigate_extract (clickable : nat) (original_url : string)
    (wf : WorkflowStep) : Drv (option Dict) :=
  catch
    (call_unit (EClick clickable);;
     (match wait_selector wf with
      | Some ws => if String.eqb (wait_condition wf) "selector" && Py.truthy (Some ws)
                   then call_unit (PWaitSelector main_page ws)
                   else call_unit (PWaitLoad main_page (wait_condition wf))
      | None => call_unit (PWaitLoad main_page (wait_condition wf))
      end);;
     call_unit (Sleep 500);;
     extracted_data ← extract_fields_of (PQuery main_page) wf;
     navigate_back original_url;;
     Ret (Some extracted_data))
    (fun _ =>
       catch (navigate_back original_url) (fun _ => Ret tt);;
       Ret None).

(** [_handle_click_workflow_by_index] *)
Definition handle_click_workflow_by_index (i : nat) (wf : WorkflowStep) : Drv (option Dict) :=
  match get_items_selector with
  | None => Ret None
  | Some its =>
      let full_clickable_selector := nth_item_selector its i ++ " " ++ target_selector wf in
      catch
        (clickable ← call_handle (PQuery main_page full_clickable_selector);
         match clickable with
         | None => Ret None
         | Some c =>
             ok ← is_element_clickable c;
             if negb ok then Ret None else
             original_url ← page_url_of main_page;
             click_navigate_extract c original_url wf
         end)
        (fun _ => Ret None)
  end.

(** [_handle_click_workflow] (element-handle variant) *)
Definition handle_click_workflow (item : nat) (wf : WorkflowStep) : Drv (option Dict) :=
  found ← catch
            (clickable ← call_handle (EQuery item (target_selector wf));
             match clickable with
             | None => Ret (@None nat)
             | Some c => ok ← is_element_clickable c; Ret (if (ok : bool) then Some c else None)
             end)
            (fun _ => Ret (@None nat));
  match found with
  | None => Ret None
  | Some c =>
      original_url ← page_url_of main_page;
      click_navigate_extract c original_url wf
  end.

(** [_handle_extract_workflow_by_index] *)
Definition handle_extract_workflow_by_index (i : nat) (wf : WorkflowStep) : Drv (option Dict) :=
  match get_items_selector with
  | None => Ret None
  | Some its =>
      extracted ← extract_fields_of (fun sel => PQuery main_page (nth_item_selector its i ++ " " ++ sel)) wf;
      Ret (Some extracted)
  end.

(** the root-relative resolution of an href against [base_url] *)
Definition join_root_relative (base href : string) : string :=
  if Py.endswith "/" base then base ++ Py.drop1 href else base ++ href.

(** [# Handle relative URLs] block *)
Definition resolve_href (href : string) : Drv string :=
  if Py.startswith "/" href then
    base ← page_url_of main_page;
    Ret (join_root_relative base href)
  else Ret href.

(** What both new-tab handlers do once the link element is found (lines
    397-444 and 531-582 of the source, the same code): read the href,
    resolve it, open a page in the same context, load and extract, and
    close the page in a [finally]. *)
Definition new_tab_from_link (link : nat) (wf : WorkflowStep) : Drv (option Dict) :=
  href ← call_str (EAttr link "href");
  match href with
  | Some h =>
      if negb (Py.truthy (Some h)) then Ret None else
      target ← resolve_href h;
      new_page ← call_page NewPage;
      finally
        (catch
           (call_unit (PGoto new_page target);;
            call_unit (PWaitLoad new_page "networkidle");;
            call_unit (Sleep 500);;
            extracted ← extract_fields_of (PQuery new_page) wf;
            Ret (Some extracted))
           (fun _ => Ret None))
        (call_unit (PClose new_page))
  | None => Ret None
  end.

(** [_handle_new_tab_workflow_by_index] *)
Definition handle_new_tab_workflow_by_index (i : nat) (wf : WorkflowStep) : Drv (option Dict) :=
  match get_items_selector with
  | None => Ret None
  | Some its =>
      let full_link_selector := nth_item_selector its i ++ " " ++ target_selector wf in
      catch
        (link ← call_handle (PQuery main_page full_link_selector);
         match link with
         | None => Ret None
         | Some l => new_tab_from_link l wf
         end)
        (fun _ => Ret None)
  end.

(** [_handle_new_tab_workflow] (element-handle variant) *)
Definition handle_new_tab_workflow (item : nat) (wf : WorkflowStep) : Drv (option Dict) :=
  catch
    (link ← call_handle (EQuery item (target_selector wf));
     match link with
     | None => Ret None
     | Some l => new_tab_from_link l wf
     end)
    (fun _ => Ret None).

(** [_execute_workflow_step_by_index] *)
Definition execute_workflow_step_by_index (i : nat) (wf : WorkflowStep) : Drv (option Dict) :=
  if String.eqb (action wf) "click" then handle_click_workflow_by_index i wf
  else if String.eqb (action wf) "extract" then handle_extract_workflow_by_index i wf
  else if String.eqb (action wf) "open_new_tab" then handle_new_tab_workflow_by_index i wf
  else Ret None.

(** loop of [_execute_workflows_by_index]; [dict.update] is a left-biased
    union (an update with an empty dict is a no-op) *)
Fixpoint execute_workflows_loop (i : nat) (wfs : list WorkflowStep) (workflow_data : Dict) : Drv Dict :=
  match wfs with
  | [] => Ret workflow_data
  | wf :: rest =>
      result ← catch (execute_workflow_step_by_index i wf) (fun _ => Ret None);
      execute_workflows_loop i rest
        (match result with Some m => m ∪ workflow_data | None => workflow_data end)
  end.

(** [_execute_workflows_by_index] *)
Definition execute_workflows_by_index (i : nat) : Drv Dict :=
  match get_items_selector with
  | None => Ret ∅
  | Some _ => execute_workflows_loop i (workflows config) ∅
  end.

(** the body of the item loop of [_extract_page_data], for item [i] *)
Definition process_item (i : nat) (item : nat) : Drv ExtractionResult :=
  item_data ← extract_item_data item;
  item_data' ←
    (match workflows config with
     | [] => Ret item_data
     | _ :: _ => workflow_data ← execute_workflows_by_index i;
                 Ret (workflow_data ∪ item_data)
     end);
  url ← page_url_of main_page;
  ts ← call_str Now;
  Ret {| data := item_data';
         source_url := url;
         extraction_time := match ts with Some t => t | None => "" end;
         workflow_path := [] |}.

(** [for i in range(total_items)], from index [i] with [remaining] indices
    left: items are re-queried before each index and the loop breaks when
    the live count is at most [i] *)
Fixpoint items_loop (its : ElementSelection) (i remaining : nat) : Drv (list ExtractionResult) :=
  match remaining with
  | O => Ret []
  | S rem =>
      current_items ← call_handles (PQueryAll main_page (selector its));
      if List.length current_items <=? i then Ret []
      else
        match current_items !! i with
        | None => Throw IndexError
        | Some item =>
            result ← process_item i item;
            rest ← items_loop its (S i) rem;
            Ret (result :: rest)
        end
  end.

(** [_extract_page_data] *)
Definition extract_page_data : Drv (list ExtractionResult) :=
  match get_items_selector with
  | None => Ret []                     (* logger.warning("No items selector configured") *)
  | Some its =>
      items ← call_handles (PQueryAll main_page (selector its));
      items_loop its 0 (List.length items)
  end.

(** the candidate scan of [_navigate_to_next_page]: the first element whose
    normalised text contains, is contained in, or equals [original] *)
Fixpoint find_matching_pagination (original : string) (els : list nat) : Drv (option nat) :=
  match els with
  | [] => Ret None
  | e :: rest =>
      element_text ← call_str (EText e);
      match element_text with
      | Some t =>
          if Py.truthy (Some t) then
            let et := Py.lower (Py.strip t) in
            if Py.contains et original || Py.contains original et || String.eqb et original
            then Ret (Some e)
            else find_matching_pagination original rest
          else find_matching_pagination original rest
      | None => find_matching_pagination original rest
      end
  end.

(** [_navigate_to_next_page] *)
Definition navigate_to_next_page : Drv bool :=
  match pagination_config config with
  | None => Ret false
  | Some pc =>
      catch
        (pagination_elements ← call_handles (PQueryAll main_page (selector pc));
         match pagination_elements with
         | [] => Ret false
         | first :: _ =>
             selected_element ←
               (if Py.truthy (original_content pc) then
                  let original := Py.lower (Py.strip (default "" (original_content pc))) in
                  find_matching_pagination original pagination_elements
                  (* no match: [return False] *)
                else Ret (Some first));
             match selected_element with
             | None => Ret false
             | Some el =>
                 ok ← is_element_clickable el;
                 if negb ok then Ret false else
                 element_text ← call_str (EText el);
                 (* [element_text.strip()] on [None] raises *)
                 match element_text with
                 | None => Throw AttributeError
                 | Some _ =>
                     call_unit (EClick el);;
                     call_unit (PWaitLoad main_page "networkidle");;
                     call_unit (Sleep (delay_ms config));;
                     Ret true
                 end
             end
         end)
        (fun _ => Ret false)
  end.

(** [if self.config.max_pages and page_number >= self.config.max_pages] *)
Definition max_pages_reached (page_number : Z) : bool :=
  match max_pages config with
  | Some m => negb (m =? 0)%Z && (m <=? page_number)%Z
  | None => false
  end.

(** the [while True] loop of [crawl_with_workflows], with [fuel] iterations
    at most; [collected] is [self.data] so far *)
Fixpoint crawl_loop (fuel : nat) (page_number : Z) (collected : list ExtractionResult)
    : Drv (list ExtractionResult) :=
  match fuel with
  | O => Stall
  | S f =>
      url ← page_url_of main_page;
      record (HistAppend url page_number);;
      page_results ← extract_page_data;
      let collected' := app collected page_results in
      if max_pages_reached page_number then Ret collected' else
      advanced ← navigate_to_next_page;
      if negb advanced then Ret collected' else
      crawl_loop f (page_number + 1)%Z collected'
  end.

(** [crawl_with_workflows] on a fresh crawler ([self.data == []]) *)
Definition crawl_with_workflows (fuel : nat) : Drv (list ExtractionResult) :=
  call_unit (PGoto main_page (base_url config));;
  call_unit (PWaitLoad main_page "networkidle");;
  crawl_loop fuel 1 [].

End Crawler.

(** [self.navigation_history]: the states appended during a run *)
Fixpoint navigation_history (t : list Event) : list (string * Z) :=
  match t with
  | [] => []
  | (HistAppend u p, _) :: r => (u, p) :: navigation_history r
  | _ :: r => navigation_history r
  end.

Record Summary := mk_summary {
  total_items : nat; unique_sources : nat; workflow_usage : nat; pages_visited : nat }.

(** [get_extraction_summary] *)
Definition get_extraction_summary (results : list ExtractionResult) (t : list Event) : Summary :=
  {| total_items := List.length results;
     unique_sources := List.length (remove_dups (map source_url results));
     workflow_usage := List.length (filter (fun r => bool_decide (workflow_path r ≠ [])) results);
     pages_visited := List.length (navigation_history t) |}.

(* ------------------------------------------------------------------ *)
(** ** [PaginatedCrawler.navigate_to_next_page] ([app/core/crawler.py])

    [CrawlerConfig] declares no [pagination_original_content]; the method
    reads it through [hasattr], so [None] here stands for an absent (or
    falsy) attribute and [Some] for one set on the object. *)

Record CrawlerConfig := mk_core_config {
  core_base_url : string;
  pagination_selector : option string;
  pagination_original_content : option string;
  core_max_pages : option Z;
  core_delay_ms : Z
}.

(** returns the result and the new [self.current_page] *)
Definition core_navigate_to_next_page (cfg : CrawlerConfig) (current_page : Z) : Drv (bool * Z) :=
  match pagination_selector cfg with
  | None => Ret (false, current_page)
  | Some ps =>
      if negb (Py.truthy (Some ps)) then Ret (false, current_page) else
      catch
        (pagination_elements ← call_handles (PQueryAll main_page ps);
         match pagination_elements with
         | [] => Ret (false, current_page)
         | first :: _ =>
             selected_element ←
               (if Py.truthy (pagination_original_content cfg) then
                  let original := Py.lower (Py.strip (default "" (pagination_original_content cfg))) in
                  m ← find_matching_pagination original pagination_elements;
                  (* no match: fall back to the first element *)
                  Ret (match m with Some e => e | None => first end)
                else Ret first);
             ok ← is_element_clickable selected_element;
             if negb ok then Ret (false, current_page) else
             element_text ← call_str (EText selected_element);
             call_unit (EClick selected_element);;
             call_unit (PWaitLoad main_page "networkidle");;
             call_unit (Sleep (core_delay_ms cfg));;
             Ret (true, (current_page + 1)%Z)
         end)
        (fun _ => Ret (false, current_page))
  end.

(* ------------------------------------------------------------------ *)
(** ** Reasoning about driver programs *)

(** [wp P Q E S m]: every call [m] makes satisfies [P], a normal return
    satisfies [Q], an escaping exception [E], running out of fuel [S]. *)
Fixpoint wp {A} (P : Op -> Prop) (Q : A -> Prop) (E : Exn -> Prop) (S : Prop)
    (m : Drv A) : Prop :=
  match m with
  | Ret a => Q a
  | Throw e => E e
  | Stall => S
  | Call o k => P o /\ forall r, wp P Q E S (k r)
  end.

Definition outcome_ok {A} (Q : A -> Prop) (E : Exn -> Prop) (S : Prop) (o : Outcome A) : Prop :=
  match o with Done a => Q a | Raised e => E e | Stalled => S end.

(** [wph]: as [wp], but each condition also sees the calls made so far
    ([tr], oldest first). *)
Fixpoint wph {A} (P : list Event -> Op -> Prop) (Q : list Event -> A -> Prop)
    (E : list Event -> Exn -> Prop) (S : list Event -> Prop)
    (tr : list Event) (m : Drv A) : Prop :=
  match m with
  | Ret a => Q tr a
  | Throw e => E tr e
  | Stall => S tr
  | Call o k => P tr o /\ forall r, wph P Q E S (tr ++ [(o, r)])%list (k r)
  end.

(** the calls that only read the page *)
Definition read_op (o : Op) : Prop :=
  match o with
  | PQuery _ _ | PQueryAll _ _ | PUrl _ | EQuery _ _ | EText _ | EAttr _ _
  | EVisible _ | EEval _ _ => True
  | _ => False
  end.

(** [tr'] is [tr] followed by calls satisfying [R] *)
Definition ext_by (R : Op -> Prop) (tr tr' : list Event) : Prop :=
  exists ext, tr' = (tr ++ ext)%list /\ Forall (fun ev => R ev.1) ext.

(** the check made at each call of a new-tab handler: a [goto] of a page
    goes to the resolved href, read earlier from a link, on the page
    returned by [new_page] *)
Definition new_tab_target_ok (tr : list Event) (o : Op) : Prop :=
  match o with
  | PGoto pg u =>
      exists l href,
        In (EAttr l "href", Some (RStr (Some href))) tr /\
        In (NewPage, Some (RHandle (Some pg))) tr /\
        if Py.startswith "/" href
        then exists base, In (PUrl main_page, Some (RStr (Some base))) tr /\
               u = (if Py.endswith "/" base then base ++ Py.drop1 href else base ++ href)
        else u = href
  | _ => True
  end.

(** [P] holds at each call of [t], given the calls before it ([before] and
    the earlier calls of [t]) *)
Fixpoint calls_ok (P : list Event -> Op -> Prop) (before t : list Event) : Prop :=
  match t with
  | [] => True
  | ev :: t' => P before ev.1 /\ calls_ok P (before ++ [ev])%list t'
  end.

(* ------------------------------------------------------------------ *)
(** ** Trace predicates, and the configurations and browsers of the examples *)

(** A new-tab step of an item whose link is protocol-relative *)
Definition sel_text (n s t : string) : ElementSelection :=
  mk_selection n s t "" "text" None None None None.

Definition cfg_new_tab : CrawlerConfiguration :=
  mk_config "c" "https://x.com/list"
    [sel_text "items" ".row" "items_container"; sel_text "title" ".t" "data_field"]
    [mk_step "s1" "open_new_tab" "a.more" "" (Some ["title"]) "networkidle" None]
    None None 0%Z.

Definition wf_new_tab : WorkflowStep :=
  mk_step "s1" "open_new_tab" "a.more" "" (Some ["title"]) "networkidle" None.

Definition orc_new_tab : Oracle := fun _ o =>
  match o with
  | EQuery _ _ => Some (RHandle (Some 7))
  | EAttr _ "href" => Some (RStr (Some "//cdn.x.com/a"))
  | PUrl _ => Some (RStr (Some "https://x.com/list"))
  | NewPage => Some (RHandle (Some 1))
  | EText _ => Some (RStr (Some "A"))
  | PQuery _ _ => Some (RHandle (Some 8))
  | _ => Some RUnit
  end.

(** calls other than a click *)
Definition no_click (o : Op) : Prop := match o with EClick _ => False | _ => True end.

(** after each click of [t]: the click came right after a read of the
    main-page URL [orig], and [t] ends with a [goto] of the main page to
    [orig], followed by the wait for its load when the [goto] returned *)
Definition restored_after_click (t : list Event) : Prop :=
  forall t1 c rc t2, t = (t1 ++ (EClick c, rc) :: t2)%list ->
  exists t0 orig t3 rg t4,
    t1 = (t0 ++ [(PUrl main_page, Some (RStr (Some orig)))])%list /\
    t2 = (t3 ++ (PGoto main_page orig, rg) :: t4)%list /\
    ((rg = None /\ t4 = []) \/
     (rg <> None /\ exists rw, t4 = [(PWaitLoad main_page "networkidle", rw)])).

(** an element whose class and opacity are given, with no other disabling
    signal, visible, and with pointer-events ["auto"] *)
Definition style_oracle (cls opacity : string) : Oracle := fun _ o =>
  match o with
  | EAttr _ "class" => Some (RStr (Some cls))
  | EAttr _ _ => Some (RStr None)
  | EVisible _ => Some (RBool true)
  | EEval _ js => Some (RStr (Some (if String.eqb js opacity_js then opacity else "auto")))
  | _ => Some RUnit
  end.

(** the item loop's own [IndexError] is the only one in the model *)
Definition not_index_error (e : Exn) : Prop := e <> IndexError.

Definition its_row : ElementSelection := sel_text "items" ".row" "items_container".

(** a page on which one item matches *)
Definition orc_one_item : Oracle := fun _ o =>
  match o with
  | PQueryAll _ _ => Some (RHandles [10])
  | _ => Some RUnit
  end.

Definition cfg_no_items : CrawlerConfiguration :=
  mk_config "c" "https://x.com/list" [sel_text "title" ".t" "data_field"] [] None None 0%Z.

(** a site whose calls all succeed, its main page at ["https://x.com/list"] *)
Definition orc_ok : Oracle := fun _ o =>
  match o with
  | PUrl _ => Some (RStr (Some "https://x.com/list"))
  | _ => Some RUnit
  end.

(** no text read from an element matches [original] in the sense of the
    specification *)
Definition no_text_matches (orc : Oracle) (original : string) : Prop :=
  forall h e t, orc h (EText e) = Some (RStr (Some t)) -> t <> "" ->
    let et := Py.lower (Py.strip t) in
    Py.contains et original = false /\ Py.contains original et = false /\ et <> original.

(** a page whose one pagination candidate reads ["Prev"] and is clickable *)
Definition orc_prev : Oracle := fun _ o =>
  match o with
  | PQueryAll _ _ => Some (RHandles [5])
  | EText _ => Some (RStr (Some "Prev"))
  | EAttr _ "class" => Some (RStr (Some "page-link"))
  | EAttr _ _ => Some (RStr None)
  | EVisible _ => Some (RBool true)
  | EEval _ js => Some (RStr (Some (if String.eqb js opacity_js then "1" else "auto")))
  | _ => Some RUnit
  end.

Definition core_cfg_next : CrawlerConfig :=
  mk_core_config "https://x.com/list" (Some "a.page") (Some "Next") None 0%Z.

Definition pagination_next : ElementSelection :=
  mk_selection "next" "a.page" "pagination" "" "text" None None (Some "Next") None.

Definition cfg_next : CrawlerConfiguration :=
  mk_config "c" "https://x.com/list" [] [] (Some pagination_next) None 0%Z.

(** the calls other than the navigation-history append *)
Definition not_hist (o : Op) : Prop := match o with HistAppend _ _ => False | _ => True end.
Definition nh {A} (m : Drv A) : Prop := wp not_hist (fun _ => True) (fun _ => True) True m.

Definition orc_pages : Oracle := fun _ o =>
  match o with
  | PUrl _ => Some (RStr (Some "https://x.com/list"))
  | PQueryAll _ _ => Some (RHandles [5])
  | EText _ => Some (RStr (Some "Next"))
  | EAttr _ "class" => Some (RStr (Some "page-link"))
  | EAttr _ _ => Some (RStr None)
  | EVisible _ => Some (RBool true)
  | EEval _ js => Some (RStr (Some (if String.eqb js opacity_js then "1" else "auto")))
  | _ => Some RUnit
  end.

Definition cfg_pages (mp : option Z) : CrawlerConfiguration :=
  mk_config "c" "https://x.com/list" [] [] (Some pagination_next) mp 0%Z.

(** the keys of [d] are those of [acc] and the names of [fs] that some
    selection of the configuration carries *)
Definition keys_from (cfg : CrawlerConfiguration) (acc : Dict) (fs : list string) (d : Dict) : Prop :=
  forall k, is_Some (d !! k) <-> is_Some (acc !! k) \/ (k ∈ fs /\ is_Some (find_selection_by_name cfg k)).

Definition cfg_ghost : CrawlerConfiguration :=
  mk_config "c" "https://x.com/list"
    [sel_text "items" ".row" "items_container"; sel_text "title" ".t" "data_field"]
    [mk_step "s1" "extract" "" "" (Some ["title"; "ghost"]) "networkidle" None]
    None (Some 3%Z) 0%Z.

Definition orc_ghost : Oracle := fun _ o =>
  match o with
  | PQueryAll _ s => Some (RHandles (if String.eqb s ".row" then [10; 11] else []))
  | EQuery _ _ => Some (RHandle (Some 20))
  | PQuery _ _ => Some (RHandle (Some 21))
  | EText _ => Some (RStr (Some "A"))
  | PUrl _ => Some (RStr (Some "https://x.com/list"))
  | Now => Some (RStr (Some "T"))
  | _ => Some RUnit
  end.

(* ------------------------------------------------------------------ *)
(** ** The rest of the crawlers: element-handle workflows, the core
    crawler, the workflow builder *)

Section CrawlerElement.
Variable config : CrawlerConfiguration.

(** [_handle_extract_workflow] (element-handle variant) *)
Definition handle_extract_workflow (item : nat) (wf : WorkflowStep) : Drv (option Dict) :=
  extracted ← extract_fields_of config (EQuery item) wf;
  Ret (Some extracted).

(** [_execute_workflow_step] *)
Definition execute_workflow_step (item : nat) (wf : WorkflowStep) : Drv (option Dict) :=
  if String.eqb (action wf) "click" then handle_click_workflow config item wf
  else if String.eqb (action wf) "extract" then handle_extract_workflow item wf
  else if String.eqb (action wf) "open_new_tab" then handle_new_tab_workflow config item wf
  else Ret None.

(** loop of [_execute_workflows] *)
Fixpoint execute_workflows_el_loop (item : nat) (wfs : list WorkflowStep) (workflow_data : Dict) : Drv Dict :=
  match wfs with
  | [] => Ret workflow_data
  | wf :: rest =>
      result ← catch (execute_workflow_step item wf) (fun _ => Ret None);
      execute_workflows_el_loop item rest
        (match result with Some m => m ∪ workflow_data | None => workflow_data end)
  end.

(** [_execute_workflows] *)
Definition execute_workflows (item : nat) : Drv Dict :=
  execute_workflows_el_loop item (workflows config) ∅.

End CrawlerElement.

(** every key of [d] is the name of a selection of the configuration *)
Definition named_keys (cfg : CrawlerConfiguration) (d : Dict) : Prop :=
  forall k, is_Some (d !! k) -> exists s, In s (selections cfg) /\ name s = k.

Definition opt_named (cfg : CrawlerConfiguration) (o : option Dict) : Prop :=
  match o with Some d => named_keys cfg d | None => True end.


(** [self.config.selectors]: a Python dict, as its list of items in
    insertion order (the keys of a dict are distinct) *)
Abbreviation Selectors := (list (string * string)).

(** [dict.get] *)
Definition selectors_get (k : string) (sels : Selectors) : option string :=
  match find (fun p => String.eqb p.1 k) sels with
  | Some p => Some p.2
  | None => None
  end.

(** the inner loop of [extract_data_from_page], over [selectors.items()] *)
Fixpoint core_item_fields (item : nat) (fields : Selectors) (item_data : Dict) : Drv Dict :=
  match fields with
  | [] => Ret item_data
  | (field_name, field_selector) :: rest =>
      if String.eqb field_name "items" then core_item_fields item rest item_data
      else
        value ← catch (element ← call_handle (EQuery item field_selector);
                       match element with
                       | Some el => call_str (EText el)
                       | None => Ret None
                       end)
                      (fun _ => Ret None);
        core_item_fields item rest (<[field_name := value]> item_data)
  end.

(** the outer loop of [extract_data_from_page]: [if item_data: append] *)
Fixpoint core_items (sels : Selectors) (items : list nat) : Drv (list Dict) :=
  match items with
  | [] => Ret []
  | item :: rest =>
      item_data ← core_item_fields item sels ∅;
      page_data ← core_items sels rest;
      Ret (if bool_decide (item_data = ∅) then page_data else item_data :: page_data)
  end.

(** [PaginatedCrawler.extract_data_from_page] *)
Definition core_extract_data_from_page (sels : Selectors) : Drv (list Dict) :=
  match selectors_get "items" sels with
  | Some item_selector =>
      if negb (Py.truthy (Some item_selector)) then Ret [] else
      items ← call_handles (PQueryAll main_page item_selector);
      core_items sels items
  | None => Ret []
  end.

(** the names of the fields an item gets: every selector but ["items"] *)
Definition core_fields (sels : Selectors) : list string :=
  List.filter (fun k => negb (String.eqb k "items")) (map fst sels).

(** [if self.config.max_pages and self.current_page >= self.config.max_pages] *)
Definition core_max_pages_reached (cfg : CrawlerConfig) (current_page : Z) : bool :=
  match core_max_pages cfg with
  | Some m => negb (m =? 0)%Z && (m <=? current_page)%Z
  | None => false
  end.

(** the [while True] loop of [PaginatedCrawler.crawl] (no [custom_extractor]),
    with [fuel] iterations at most; it returns [self.data] and
    [self.current_page] *)
Fixpoint core_crawl_loop (cfg : CrawlerConfig) (sels : Selectors) (fuel : nat)
    (current_page : Z) (collected : list Dict) : Drv (list Dict * Z) :=
  match fuel with
  | O => Stall
  | S f =>
      page_data ← core_extract_data_from_page sels;
      let collected' := app collected page_data in
      if core_max_pages_reached cfg current_page then Ret (collected', current_page) else
      r ← core_navigate_to_next_page cfg current_page;
      let '(ok, cp) := r in
      if negb ok then Ret (collected', cp) else core_crawl_loop cfg sels f cp collected'
  end.

(** [PaginatedCrawler.crawl] on a fresh crawler ([self.data == []],
    [self.current_page == 1]) *)
Definition core_crawl (cfg : CrawlerConfig) (sels : Selectors) (fuel : nat) : Drv (list Dict * Z) :=
  call_unit (PGoto main_page (core_base_url cfg));;
  call_unit (PWaitLoad main_page "networkidle");;
  core_crawl_loop cfg sels fuel 1 [].


(** the number of clicks in a trace *)
Fixpoint clicks (t : list Event) : nat :=
  match t with
  | [] => 0
  | (EClick _, _) :: r => S (clicks r)
  | _ :: r => clicks r
  end.

Module WorkflowBuilder.

(** [self.steps] of a [WorkflowBuilder] *)
Record t := mk_builder { steps : list WorkflowStep }.

(** [WorkflowBuilder()] *)
Definition init : t := mk_builder [].

(** [description or f"..."] *)
Definition or_default (description default : string) : string :=
  if Py.truthy (Some description) then description else default.

Definition add_click_and_extract (b : t) (step_id click_selector : string)
    (extract_fields : list string) (description : string) : t :=
  mk_builder (steps b ++
    [mk_step step_id "click" click_selector
       (or_default description ("Click " ++ click_selector ++ " and extract data"))
       (Some extract_fields) "networkidle" None])%list.

Definition add_new_tab_extraction (b : t) (step_id link_selector : string)
    (extract_fields : list string) (description : string) : t :=
  mk_builder (steps b ++
    [mk_step step_id "open_new_tab" link_selector
       (or_default description ("Open " ++ link_selector ++ " in new tab and extract"))
       (Some extract_fields) "networkidle" None])%list.

(** [wait_condition] keeps the dataclass default ["networkidle"] *)
Definition add_extract_only (b : t) (step_id target_selector : string)
    (extract_fields : list string) (description : string) : t :=
  mk_builder (steps b ++
    [mk_step step_id "extract" target_selector
       (or_default description ("Extract from " ++ target_selector))
       (Some extract_fields) "networkidle" None])%list.

(** [self.steps.copy()] *)
Definition build (b : t) : list WorkflowStep := steps b.

(** a call of the fluent API *)
Inductive call :=
  | ClickAndExtract (step_id sel : string) (fs : list string) (description : string)
  | NewTabExtraction (step_id sel : string) (fs : list string) (description : string)
  | ExtractOnly (step_id sel : string) (fs : list string) (description : string).

Definition apply_call (b : t) (c : call) : t :=
  match c with
  | ClickAndExtract i s fs d => add_click_and_extract b i s fs d
  | NewTabExtraction i s fs d => add_new_tab_extraction b i s fs d
  | ExtractOnly i s fs d => add_extract_only b i s fs d
  end.

(** [WorkflowBuilder().c1(...).c2(...)....build()] *)
Definition build_calls (cs : list call) : list WorkflowStep := build (fold_left apply_call cs init).

End WorkflowBuilder.

(** the shape of a step the builder makes *)
Definition built_step_ok (wf : WorkflowStep) : Prop :=
  step_description wf <> "" /\ extract_fields wf <> None /\
  wait_condition wf = "networkidle" /\ wait_selector wf = None /\
  forall cfg i,
    (action wf = "click" /\ execute_workflow_step_by_index cfg i wf = handle_click_workflow_by_index cfg i wf) \/
    (action wf = "extract" /\ execute_workflow_step_by_index cfg i wf = handle_extract_workflow_by_index cfg i wf) \/
    (action wf = "open_new_tab" /\ execute_workflow_step_by_index cfg i wf = handle_new_tab_workflow_by_index cfg i wf).

(** a data field that [_extract_item_data] extracts on [current_url] *)
Definition field_in_scope (current_url : string) (s : ElementSelection) : bool :=
  String.eqb (element_type s) "data_field" &&
  match page_url s with
  | Some fpu => if Py.truthy (Some fpu)
                then match is_field_for_current_page fpu current_url with
                     | Some b => b
                     | None => false
                     end
                else true
  | None => true
  end.

(** a data field whose [page_url] [urlparse] rejects *)
Definition field_scope_error (current_url : string) (s : ElementSelection) : bool :=
  String.eqb (element_type s) "data_field" &&
  match page_url s with
  | Some fpu => Py.truthy (Some fpu) &&
                match is_field_for_current_page fpu current_url with
                | Some _ => false
                | None => true
                end
  | None => false
  end.

(** every page opened in [tr] (a [new_page] that returned [np]) is closed
    in [tr], but maybe [np] *)
Definition tabs_closed_but (np : option nat) (tr : list Event) : Prop :=
  forall q, In (NewPage, Some (RHandle (Some q))) tr -> Some q = np \/ exists r, In (PClose q, r) tr.

Definition not_new_page (o : Op) : Prop := match o with NewPage => False | _ => True end.

(* ------------------------------------------------------------------ *)
(** * Proofs *)

(** [urlparse] and the field scope resolver on sample URLs *)
Example urlparse_ex1 :
  Url.urlparse "https://x.com/list/detail/7?q=1#top" = Some (Url.mk_parts "https" "x.com" "/list/detail/7").
Proof. reflexivity. Qed.
Example urlparse_ex2 :
  Url.urlparse "http://a.b:80/p;x/q;y" = Some (Url.mk_parts "http" "a.b:80" "/p;x/q").
Proof. reflexivity. Qed.
Example scope_ex1 : is_field_for_current_page "https://x.com/list/" "https://x.com/list" = Some true.
Proof. reflexivity. Qed.
Example scope_ex2 : is_field_for_current_page "https://x.com/list" "https://x.com/listing" = Some true.
Proof. reflexivity. Qed.

Lemma wp_run {A} P Q E S (m : Drv A) orc h :
  wp P Q E S m ->
  Forall (fun ev => P ev.1) (run orc h m).1 /\ outcome_ok Q E S (run orc h m).2.
Proof.
  revert h; induction m as [a|e|o k IH|]; intros h Hm; simpl in *; try by split.
  destruct Hm as [Ho Hk]. destruct (IH (orc h o) (h ++ [(o, orc h o)])%list (Hk _)).
  split; [constructor|]; done.
Qed.

Lemma wp_mono {A} P P' (Q Q' : A -> Prop) E E' (S S' : Prop) m :
  wp P Q E S m ->
  (forall o, P o -> P' o) -> (forall a, Q a -> Q' a) ->
  (forall e, E e -> E' e) -> (S -> S') ->
  wp P' Q' E' S' m.
Proof.
  induction m as [a|e|o k IH|]; simpl; intros Hm HP HQ HE HS; auto.
  destruct Hm as [Ho Hk]; split; auto.
Qed.

Lemma wp_bind {A B} P (Q1 : A -> Prop) (Q : B -> Prop) E S (m : Drv A) (f : A -> Drv B) :
  wp P Q1 E S m -> (forall a, Q1 a -> wp P Q E S (f a)) -> wp P Q E S (m ≫= f).
Proof.
  unfold mbind, drv_mbind.
  induction m as [a|e|o k IH|]; simpl; intros Hm Hf; auto.
  destruct Hm as [Ho Hk]; split; auto.
Qed.

Lemma wp_catch {A} P (Q : A -> Prop) E1 E S (m : Drv A) (hd : Exn -> Drv A) :
  wp P Q E1 S m -> (forall e, E1 e -> wp P Q E S (hd e)) -> wp P Q E S (catch m hd).
Proof.
  induction m as [a|e|o k IH|]; simpl; intros Hm Hh; auto.
  destruct Hm as [Ho Hk]; split; auto.
Qed.

Lemma wp_ret {A} P (Q : A -> Prop) E S a : Q a -> wp P Q E S (Ret a).
Proof. done. Qed.

Lemma wp_call_unit P Q E S o :
  P o -> Q tt -> E DriverError -> wp P Q E S (call_unit o).
Proof. intros. split; [done|]. intros [r|]; simpl; done. Qed.

Lemma wp_call_str P Q E S o :
  P o -> (forall s, Q s) -> E DriverError -> wp P Q E S (call_str o).
Proof. intros. split; [done|]. intros [[]|]; simpl; done. Qed.

Lemma wp_call_bool P Q E S o :
  P o -> (forall b, Q b) -> E DriverError -> wp P Q E S (call_bool o).
Proof. intros. split; [done|]. intros [[]|]; simpl; done. Qed.

Lemma wp_call_handle P Q E S o :
  P o -> (forall h, Q h) -> E DriverError -> wp P Q E S (call_handle o).
Proof. intros. split; [done|]. intros [[]|]; simpl; done. Qed.

Lemma wp_call_handles P Q E S o :
  P o -> (forall hs, Q hs) -> E DriverError -> wp P Q E S (call_handles o).
Proof. intros. split; [done|]. intros [[]|]; simpl; done. Qed.

Lemma wp_call_page P Q E S o :
  P o -> (forall p, Q p) -> E DriverError -> wp P Q E S (call_page o).
Proof. intros. split; [done|]. intros [[]|]; simpl; repeat case_match; simpl; auto. Qed.

Lemma wp_page_url_of P Q E S pg :
  P (PUrl pg) -> (forall u, Q u) -> E DriverError -> wp P Q E S (page_url_of pg).
Proof. intros. split; [done|]. intros [[]|]; simpl; repeat case_match; simpl; auto. Qed.

Lemma wp_record P (Q : unit -> Prop) E S o : P o -> Q tt -> wp P Q E S (record o).
Proof. intros. split; done. Qed.

Lemma wp_finally {A} P (Q : A -> Prop) E S (m : Drv A) c :
  wp P Q E S m -> wp P (fun _ => True) E S c -> wp P Q E S (finally m c).
Proof.
  intros Hm Hc. unfold finally.
  apply (wp_bind _ (fun r => match r with inl a => Q a | inr e => E e end)).
  - apply (wp_catch _ _ E).
    + apply (wp_bind _ Q); [done|]. intros a Ha. done.
    + intros e He. done.
  - intros r Hr. apply (wp_bind _ (fun _ => True)); [done|].
    intros [] _. destruct r; done.
Qed.

Create HintDb drv.
#[export] Hint Resolve wp_ret wp_call_unit wp_call_str wp_call_bool wp_call_handle
  wp_call_handles wp_call_page wp_page_url_of wp_record : drv.

(** [run] of a bind and of a handler, as a computation on traces *)
Lemma run_bind {A B} orc h (m : Drv A) (f : A -> Drv B) :
  run orc h (m ≫= f) =
  match run orc h m with
  | (t, Done a) => let q := run orc (h ++ t)%list (f a) in ((t ++ q.1)%list, q.2)
  | (t, Raised e) => (t, Raised e)
  | (t, Stalled) => (t, Stalled)
  end.
Proof.
  unfold mbind, drv_mbind.
  revert h; induction m as [a|e|o k IH|]; intros h; simpl.
  - rewrite app_nil_r. by destruct (run orc h (f a)).
  - done.
  - rewrite IH. destruct (run orc (h ++ [(o, orc h o)])%list (k (orc h o))) as [t [a|e|]]; simpl; auto.
    by rewrite <- app_assoc.
  - done.
Qed.

Lemma run_catch {A} orc h (m : Drv A) (hd : Exn -> Drv A) :
  run orc h (catch m hd) =
  match run orc h m with
  | (t, Raised e) => let q := run orc (h ++ t)%list (hd e) in ((t ++ q.1)%list, q.2)
  | p => p
  end.
Proof.
  revert h; induction m as [a|e|o k IH|]; intros h; simpl.
  - done.
  - rewrite app_nil_r. by destruct (run orc h (hd e)).
  - rewrite IH. destruct (run orc (h ++ [(o, orc h o)])%list (k (orc h o))) as [t [a|e|]]; simpl; auto.
    by rewrite <- app_assoc.
  - done.
Qed.

(* ------------------------------------------------------------------ *)
(** ** Field scope resolver *)

(** C6 (as the code has it): the checks of [_is_field_for_current_page],
    in their order, for URLs that [urlparse] accepts.  The first check compares the raw [netloc]
    strings (host together with any userinfo and port, case-sensitive). *)
Theorem field_scope_by_netloc (f c : string) (pf pc : Url.parts)
    (Hf : Url.urlparse f = Some pf) (Hc : Url.urlparse c = Some pc) :
  let fp := Py.rstrip_slash (Url.path pf) in
  let cp := Py.rstrip_slash (Url.path pc) in
  (Url.netloc pf <> Url.netloc pc -> is_field_for_current_page f c = Some false) /\
  (Url.netloc pf = Url.netloc pc -> fp = cp -> is_field_for_current_page f c = Some true) /\
  (Url.netloc pf = Url.netloc pc -> fp <> cp ->
     Py.split_len "/" cp < Py.split_len "/" fp -> is_field_for_current_page f c = Some false) /\
  (Url.netloc pf = Url.netloc pc -> fp <> cp ->
     Py.split_len "/" fp <= Py.split_len "/" cp ->
     is_field_for_current_page f c = Some (Py.startswith fp cp)).
Proof.
  cbv zeta. unfold is_field_for_current_page. rewrite Hf, Hc.
  repeat split; intros Hn.
  - apply String.eqb_neq in Hn. by rewrite Hn.
  - intros Hp. rewrite Hn, String.eqb_refl, Hp, String.eqb_refl. done.
  - intros Hp Hlt. rewrite Hn, String.eqb_refl. apply String.eqb_neq in Hp. rewrite Hp.
    apply Nat.ltb_lt in Hlt. by rewrite Hlt.
  - intros Hp Hle. rewrite Hn, String.eqb_refl. apply String.eqb_neq in Hp. rewrite Hp.
    destruct (Py.split_len "/" (Py.rstrip_slash (Url.path pc)) <? Py.split_len "/" (Py.rstrip_slash (Url.path pf))) eqn:Hlt;
      [apply Nat.ltb_lt in Hlt; lia|done].
Qed.

Lemma field_scope_by_netloc_witness :
  (Url.urlparse "https://x.com/list/detail/7" = Some (Url.mk_parts "https" "x.com" "/list/detail/7") /\
   Url.urlparse "https://x.com/list" = Some (Url.mk_parts "https" "x.com" "/list")) /\
  is_field_for_current_page "https://x.com/list/detail/7" "https://x.com/list" = Some false.
Proof.
  split; [split; reflexivity|].
  refine (proj1 (proj2 (proj2 (field_scope_by_netloc "https://x.com/list/detail/7" "https://x.com/list"
            (Url.mk_parts "https" "x.com" "/list/detail/7") (Url.mk_parts "https" "x.com" "/list")
            eq_refl eq_refl))) eq_refl _ _).
  - discriminate.
  - apply Nat.ltb_lt. vm_compute. reflexivity.
Defined.

(** The examples of the spec *)
Example field_scope_examples :
  is_field_for_current_page "https://x.com/list" "https://x.com/list" = Some true /\
  is_field_for_current_page "https://x.com/list/detail/7" "https://x.com/list" = Some false /\
  is_field_for_current_page "https://x.com/list" "https://x.com/list/detail" = Some true /\
  is_field_for_current_page "https://y.com/list" "https://x.com/list" = Some false.
Proof. repeat split; reflexivity. Qed.

(** C6, hosts compared as raw netlocs: two URLs of the same host (host
    names are case-insensitive; [.hostname]
    is ["x.com"] for both) with the same path: the resolver answers [false]
    because the raw netlocs ["X.com"] and ["x.com"] differ. *)
Lemma field_scope_same_host_other_case :
  (exists pf pc, Url.urlparse "https://X.com/list" = Some pf /\
                 Url.urlparse "https://x.com/list" = Some pc /\
                 Url.hostname pf = Url.hostname pc /\
                 Py.rstrip_slash (Url.path pf) = Py.rstrip_slash (Url.path pc)) /\
  is_field_for_current_page "https://X.com/list" "https://x.com/list" = Some false.
Proof.
  split.
  - eexists _, _. split; [reflexivity|]. split; [reflexivity|]. split; reflexivity.
  - reflexivity.
Qed.

Lemma wph_run {A} P Q E S tr (m : Drv A) orc h :
  wph P Q E S tr m ->
  (forall t1 ev t2, (run orc h m).1 = (t1 ++ ev :: t2)%list -> P (tr ++ t1)%list ev.1) /\
  match (run orc h m).2 with
  | Done a => Q (tr ++ (run orc h m).1)%list a
  | Raised e => E (tr ++ (run orc h m).1)%list e
  | Stalled => S (tr ++ (run orc h m).1)%list
  end.
Proof.
  revert tr h; induction m as [a|e|o k IH|]; intros tr h Hm; simpl in *.
  - split; [intros [|] ? ? ?; discriminate|]. by rewrite app_nil_r.
  - split; [intros [|] ? ? ?; discriminate|]. by rewrite app_nil_r.
  - destruct Hm as [Ho Hk].
    destruct (IH (orc h o) (tr ++ [(o, orc h o)])%list (h ++ [(o, orc h o)])%list (Hk _)) as [IH1 IH2].
    split.
    + intros [|ev1 t1] ev t2 Ht; simpl in Ht; injection Ht as Hev Ht.
      * subst ev. simpl. by rewrite app_nil_r.
      * subst ev1. specialize (IH1 _ _ _ Ht). by rewrite <- app_assoc in IH1.
    + by rewrite <- app_assoc in IH2.
  - split; [intros [|] ? ? ?; discriminate|]. by rewrite app_nil_r.
Qed.

Lemma wph_mono {A} P P' (Q Q' : list Event -> A -> Prop) E E' S S' tr m :
  wph P Q E S tr m ->
  (forall tr o, P tr o -> P' tr o) -> (forall tr a, Q tr a -> Q' tr a) ->
  (forall tr e, E tr e -> E' tr e) -> (forall tr, S tr -> S' tr) ->
  wph P' Q' E' S' tr m.
Proof.
  revert tr; induction m as [a|e|o k IH|]; simpl; intros tr Hm HP HQ HE HS; auto.
  destruct Hm as [Ho Hk]; split; auto.
Qed.

Lemma wph_bind {A B} P (Q1 : list Event -> A -> Prop) (Q : list Event -> B -> Prop) E S tr
    (m : Drv A) (f : A -> Drv B) :
  wph P Q1 E S tr m -> (forall tr' a, Q1 tr' a -> wph P Q E S tr' (f a)) ->
  wph P Q E S tr (m ≫= f).
Proof.
  unfold mbind, drv_mbind.
  revert tr; induction m as [a|e|o k IH|]; simpl; intros tr Hm Hf; auto.
  destruct Hm as [Ho Hk]; split; auto.
Qed.

Lemma wph_catch {A} P (Q : list Event -> A -> Prop) E1 E S tr (m : Drv A) (hd : Exn -> Drv A) :
  wph P Q E1 S tr m -> (forall tr' e, E1 tr' e -> wph P Q E S tr' (hd e)) ->
  wph P Q E S tr (catch m hd).
Proof.
  revert tr; induction m as [a|e|o k IH|]; simpl; intros tr Hm Hh; auto.
  destruct Hm as [Ho Hk]; split; auto.
Qed.

Lemma wph_ret {A} P (Q : list Event -> A -> Prop) E S tr a : Q tr a -> wph P Q E S tr (Ret a).
Proof. done. Qed.

Lemma wph_throw {A} P (Q : list Event -> A -> Prop) E S tr e : E tr e -> wph P Q E S tr (Throw e).
Proof. done. Qed.

Lemma bind_call {A B} o (k : option Reply -> Drv A) (f : A -> Drv B) :
  (Call o k ≫= f) = Call o (fun r => k r ≫= f).
Proof. reflexivity. Qed.

Lemma bind_ret {A B} (a : A) (f : A -> Drv B) : (Ret a ≫= f) = f a.
Proof. reflexivity. Qed.

Lemma bind_throw {A B} e (f : A -> Drv B) : (Throw e ≫= f) = Throw e.
Proof. reflexivity. Qed.

Lemma ext_by_refl R tr : ext_by R tr tr.
Proof. exists []. by rewrite app_nil_r. Qed.

Lemma ext_by_snoc R tr tr' o r : ext_by R tr tr' -> R o -> ext_by R tr (tr' ++ [(o, r)])%list.
Proof.
  intros [ext [-> Hext]] Ho. exists (ext ++ [(o, r)])%list.
  rewrite app_assoc. split; [done|]. apply Forall_app. auto.
Qed.

Lemma ext_by_trans R tr tr' tr'' : ext_by R tr tr' -> ext_by R tr' tr'' -> ext_by R tr tr''.
Proof.
  intros [e1 [-> H1]] [e2 [-> H2]]. exists (e1 ++ e2)%list.
  rewrite app_assoc. split; [done|]. by apply Forall_app.
Qed.

Lemma ext_by_weaken (R R' : Op -> Prop) tr tr' :
  (forall o, R o -> R' o) -> ext_by R tr tr' -> ext_by R' tr tr'.
Proof. intros HR [e [-> He]]. exists e. split; [done|]. eapply Forall_impl; eauto. Qed.

Global Hint Resolve ext_by_refl ext_by_snoc : drv.

(** [tr' = tr ++ ext] with every call of [ext] satisfying [R] *)
Ltac ext_solve :=
  repeat first
    [ apply ext_by_refl
    | eassumption
    | (apply ext_by_snoc; [| exact I])
    | (eapply ext_by_trans; [eassumption |]) ].

(** unfolds one call of the tree under [wph] *)
Ltac wph_call :=
  rewrite ?bind_call; cbn [wph]; split; [| intros ?r].

Lemma wph_extract_element_value P Q E S tr el s :
  (forall tr' o, read_op o -> P tr' o) ->
  (forall tr' v, ext_by read_op tr tr' -> Q tr' v) ->
  (forall tr', ext_by read_op tr tr' -> E tr' DriverError) ->
  wph P Q E S tr (extract_element_value el s).
Proof.
  intros HP HQ HE. unfold extract_element_value, call_str.
  repeat case_match; (cbn [wph]; split; [apply HP; exact I|]); intros [[]|]; cbn [wph];
    first [apply HQ | apply HE]; ext_solve.
Qed.

Lemma wph_extract_workflow_fields P Q E S tr cfg query fs acc :
  (forall sel, read_op (query sel)) ->
  (forall tr' o, read_op o -> P tr' o) ->
  (forall tr' d, ext_by read_op tr tr' -> Q tr' d) ->
  wph P Q E S tr (extract_workflow_fields cfg query fs acc).
Proof.
  intros Hq HP. revert tr acc; induction fs as [|f fs IH]; intros tr acc HQ;
    cbn [extract_workflow_fields].
  - apply wph_ret, HQ, ext_by_refl.
  - apply (wph_bind _ (fun tr' _ => ext_by read_op tr tr')).
    + apply (wph_catch _ _ (fun tr' _ => ext_by read_op tr tr')).
      * case_match.
        -- unfold call_handle. wph_call; [apply HP, Hq|].
           destruct r as [[| | |[el|]|]|]; cbn [wph]; rewrite ?bind_ret, ?bind_throw;
             cbn [wph]; try (apply ext_by_snoc; [apply ext_by_refl | apply Hq]).
           apply (wph_bind _ (fun tr' _ => ext_by read_op tr tr')).
           ++ apply wph_extract_element_value; [exact HP| |].
              ** intros tr' ? Ht. eapply ext_by_trans; [|exact Ht].
                 apply ext_by_snoc; [apply ext_by_refl | apply Hq].
              ** intros tr' Ht. eapply ext_by_trans; [|exact Ht].
                 apply ext_by_snoc; [apply ext_by_refl | apply Hq].
           ++ intros. by apply wph_ret.
        -- apply wph_ret, ext_by_refl.
      * intros. by apply wph_ret.
    + intros tr' d Ht. apply IH. intros tr'' d' Ht'. apply HQ. by eapply ext_by_trans.
Qed.

Lemma wph_extract_fields_of P Q E S tr cfg query wf :
  (forall sel, read_op (query sel)) ->
  (forall tr' o, read_op o -> P tr' o) ->
  (forall tr' d, ext_by read_op tr tr' -> Q tr' d) ->
  wph P Q E S tr (extract_fields_of cfg query wf).
Proof.
  intros. unfold extract_fields_of. case_match.
  - by apply wph_extract_workflow_fields.
  - apply wph_ret. auto with drv.
Qed.

(** a property of the calls alone carries over to [wph], the calls made
    being an extension of the history by calls satisfying [R] *)
Lemma wph_of_wp {A} (R : Op -> Prop) (Q0 : A -> Prop) (E0 : Exn -> Prop) (S0 : Prop)
    P Q E S tr (m : Drv A) :
  wp R Q0 E0 S0 m ->
  (forall tr' o, R o -> P tr' o) ->
  (forall tr' a, ext_by R tr tr' -> Q0 a -> Q tr' a) ->
  (forall tr' e, ext_by R tr tr' -> E0 e -> E tr' e) ->
  (forall tr', ext_by R tr tr' -> S0 -> S tr') ->
  wph P Q E S tr m.
Proof.
  intros Hm HP. revert tr; induction m as [a|e|o k IH|]; intros tr HQ HE HS; cbn [wp wph] in *.
  - apply HQ; auto with drv.
  - apply HE; auto with drv.
  - destruct Hm as [Ho Hk]. split; [auto|]. intros r.
    assert (Hx : ext_by R tr (tr ++ [(o, r)])%list) by auto with drv.
    apply IH; [apply Hk| | |].
    + intros tr' a Ht. apply HQ. by eapply ext_by_trans.
    + intros tr' e Ht. apply HE. by eapply ext_by_trans.
    + intros tr' Ht. apply HS. by eapply ext_by_trans.
  - apply HS; auto with drv.
Qed.

Lemma wph_finally {A} P (Q : list Event -> A -> Prop) E S tr (m : Drv A) c :
  wph P (fun tr1 a => wph P (fun tr2 _ => Q tr2 a) E S tr1 c)
        (fun tr1 e => wph P (fun tr2 _ => E tr2 e) E S tr1 c) S tr m ->
  wph P Q E S tr (finally m c).
Proof.
  intros H. unfold finally.
  apply (wph_bind _ (fun tr1 r => match r with
                                  | inl a => wph P (fun tr2 _ => Q tr2 a) E S tr1 c
                                  | inr e => wph P (fun tr2 _ => E tr2 e) E S tr1 c
                                  end)).
  - apply (wph_catch _ _ (fun tr1 e => wph P (fun tr2 _ => E tr2 e) E S tr1 c)).
    + apply (wph_bind _ (fun tr1 a => wph P (fun tr2 _ => Q tr2 a) E S tr1 c)); [exact H|].
      intros. by apply wph_ret.
    + intros. by apply wph_ret.
  - intros tr1 [a|e] Hc.
    + apply (wph_bind _ (fun tr2 _ => Q tr2 a)); [exact Hc|]. intros. by apply wph_ret.
    + apply (wph_bind _ (fun tr2 _ => E tr2 e)); [exact Hc|]. intros. by apply wph_throw.
Qed.

Ltac wp_steps :=
  repeat match goal with
  | |- wp _ _ _ _ (_ ≫= _) =>
      apply (wp_bind _ (fun _ => True));
      [ first [ apply wp_call_str | apply wp_call_bool | apply wp_call_handle
              | apply wp_call_handles | apply wp_call_unit | apply wp_page_url_of
              | apply wp_call_page ]; done
      | intros ? _ ]
  | |- wp _ _ _ _ (if _ then _ else _) => case_match
  | |- wp _ _ _ _ (let _ := _ in _) => cbv zeta
  | |- wp _ _ _ _ (Ret _) => apply wp_ret; done
  end.

(** [_is_element_clickable] reads the element only and never raises *)
Lemma wp_is_element_clickable el :
  wp read_op (fun _ => True) (fun _ => False) False (is_element_clickable el).
Proof.
  unfold is_element_clickable.
  apply (wp_catch _ _ (fun _ => True)); [|intros; by apply wp_ret].
  wp_steps.
  all: apply (wp_bind _ (fun _ => True)); [unfold py_float; repeat case_match; done|].
  all: intros ? _; wp_steps.
Qed.

Lemma new_tab_target_ok_read tr o : read_op o -> new_tab_target_ok tr o.
Proof. by destruct o. Qed.

Ltac in_trace := rewrite ?in_app_iff; simpl; tauto.

Lemma wph_close_page P Q E S tr pg :
  (forall tr', P tr' (PClose pg)) -> (forall tr', Q tr' tt) -> (forall tr', E tr' DriverError) ->
  wph P Q E S tr (call_unit (PClose pg)).
Proof. intros HP HQ HE. unfold call_unit. cbn [wph]. split; [done|]. intros [|]; cbn [wph]; done. Qed.

Ltac wph_call0 := rewrite ?bind_call; cbn [wph]; split.

Ltac wph_reduce := cbn [wph]; rewrite ?bind_ret, ?bind_throw; cbn [wph].

Lemma wph_call_unit_bind {B} P (Q : list Event -> B -> Prop) E S tr o (f : unit -> Drv B) :
  P tr o -> (forall r, wph P Q E S (tr ++ [(o, Some r)])%list (f tt)) ->
  E (tr ++ [(o, None)])%list DriverError ->
  wph P Q E S tr (call_unit o ≫= f).
Proof. intros HP Hf HE. unfold call_unit. rewrite bind_call. cbn [wph]. split; [done|]. intros [r|]; apply Hf || done. Qed.

Ltac wph_unit_step := apply wph_call_unit_bind; [exact I| intros ? | exact I].

Ltac new_tab_open :=
  unfold call_page; wph_call0; [exact I|];
  intros [[| | |[np|]|]|]; wph_reduce; try exact I;
  apply wph_finally, (wph_catch _ _ (fun _ _ => True));
    [| intros; apply wph_ret, wph_close_page; done];
  apply wph_call_unit_bind; [| intros ? | exact I];
    [| do 2 wph_unit_step;
       apply (wph_bind _ (fun _ _ => True));
         [ apply wph_extract_fields_of; [done | apply new_tab_target_ok_read | done]
         | intros; apply wph_ret, wph_close_page; done ] ].

Lemma wph_new_tab_from_link cfg tr l wf :
  wph new_tab_target_ok (fun _ _ => True) (fun _ _ => True) (fun _ => True) tr
    (new_tab_from_link cfg l wf).
Proof.
  unfold new_tab_from_link, call_str. wph_call0; [exact I|].
  intros [[| |[href|]| |]|]; wph_reduce; try exact I.
  destruct (negb _); [exact I|].
  unfold resolve_href. destruct (Py.startswith "/" href) eqn:Hs.
  - unfold page_url_of. wph_call0; [exact I|].
    intros [[| |[base|]| |]|]; wph_reduce; try exact I.
    new_tab_open.
    cbn [new_tab_target_ok]. exists l, href. rewrite Hs.
    split; [in_trace|]. split; [in_trace|]. exists base. split; [in_trace|reflexivity].
  - rewrite bind_ret. new_tab_open.
    cbn [new_tab_target_ok]. exists l, href. rewrite Hs.
    split; [in_trace|]. split; [in_trace|reflexivity].
Qed.

Lemma calls_ok_of_split P before t :
  (forall t1 ev t2, t = (t1 ++ ev :: t2)%list -> P (before ++ t1)%list ev.1) ->
  calls_ok P before t.
Proof.
  revert before; induction t as [|ev t IH]; intros before H; cbn [calls_ok]; [done|].
  split.
  - rewrite <- (app_nil_r before). by apply (H [] ev t).
  - apply IH. intros t1 ev' t2 ->. rewrite <- app_assoc. exact (H (ev :: t1) ev' t2 eq_refl).
Qed.

Lemma wph_calls_ok {A} P Q E S (m : Drv A) orc h :
  wph P Q E S [] m -> calls_ok P [] (run orc h m).1.
Proof.
  intros Hm. apply calls_ok_of_split. intros t1 ev t2 Ht.
  exact (proj1 (wph_run _ _ _ _ _ _ orc h Hm) t1 ev t2 Ht).
Qed.

Lemma wph_handle_new_tab_workflow_by_index cfg tr i wf :
  wph new_tab_target_ok (fun _ _ => True) (fun _ _ => True) (fun _ => True) tr
    (handle_new_tab_workflow_by_index cfg i wf).
Proof.
  unfold handle_new_tab_workflow_by_index. case_match; [|by apply wph_ret].
  apply (wph_catch _ _ (fun _ _ => True)); [|intros; by apply wph_ret].
  unfold call_handle. wph_call0; [exact I|].
  intros [[| | |[l|]|]|]; wph_reduce; try exact I.
  apply wph_new_tab_from_link.
Qed.

Lemma wph_handle_new_tab_workflow cfg tr item wf :
  wph new_tab_target_ok (fun _ _ => True) (fun _ _ => True) (fun _ => True) tr
    (handle_new_tab_workflow cfg item wf).
Proof.
  unfold handle_new_tab_workflow.
  apply (wph_catch _ _ (fun _ _ => True)); [|intros; by apply wph_ret].
  unfold call_handle. wph_call0; [exact I|].
  intros [[| | |[l|]|]|]; wph_reduce; try exact I.
  apply wph_new_tab_from_link.
Qed.

(** C8 (as the code has it): in both open-new-tab handlers, every [goto]
    of a page goes, on the page returned by [new_page], to the href read
    from the located link: if the href starts with ["/"], to the current
    main-page URL read before, followed by the href without its first
    character when that URL ends with ["/"] and by the whole href
    otherwise; if it does not start with ["/"], to the href unchanged. *)
Theorem new_tab_goto_target cfg orc h i item wf :
  calls_ok new_tab_target_ok [] (run orc h (handle_new_tab_workflow_by_index cfg i wf)).1 /\
  calls_ok new_tab_target_ok [] (run orc h (handle_new_tab_workflow cfg item wf)).1.
Proof.
  split; eapply wph_calls_ok.
  - apply wph_handle_new_tab_workflow_by_index.
  - apply wph_handle_new_tab_workflow.
Qed.

(** C8, the junction: the href ["//cdn.x.com/a"] starts with ["/"], is
    appended whole to ["https://x.com/list"], and the new page is sent to
    ["https://x.com/list//cdn.x.com/a"], with two slashes at the junction. *)
Lemma new_tab_protocol_relative_href :
  firstn 5 (run orc_new_tab [] (handle_new_tab_workflow cfg_new_tab 5 wf_new_tab)).1 =
  [(EQuery 5 "a.more", Some (RHandle (Some 7)));
   (EAttr 7 "href", Some (RStr (Some "//cdn.x.com/a")));
   (PUrl main_page, Some (RStr (Some "https://x.com/list")));
   (NewPage, Some (RHandle (Some 1)));
   (PGoto 1 "https://x.com/list//cdn.x.com/a", Some RUnit)].
Proof. vm_compute. reflexivity. Qed.

Lemma unique_split {T} (R : T -> Prop) u x w t1 y t2 :
  (u ++ x :: w)%list = (t1 ++ y :: t2)%list -> R y ->
  Forall (fun z => ~ R z) u -> Forall (fun z => ~ R z) w ->
  t1 = u /\ y = x /\ t2 = w.
Proof.
  revert t1; induction u as [|a u IH]; intros t1 Heq Hy Hu Hw; simpl in Heq.
  - destruct t1 as [|z t1]; simpl in Heq; injection Heq as -> ->; [done|].
    exfalso. rewrite Forall_forall in Hw. apply (Hw y); [|done].
    rewrite elem_of_app. right. by left.
  - destruct t1 as [|z t1]; simpl in Heq; injection Heq as -> Heq.
    + exfalso. by inversion Hu.
    + inversion Hu; subst. destruct (IH t1 Heq Hy) as (-> & -> & ->); done.
Qed.

Lemma restored_no_click t : Forall (fun ev => no_click ev.1) t -> restored_after_click t.
Proof.
  intros Ht t1 c rc t2 ->. exfalso. apply Forall_app in Ht as [_ Ht]. by inversion Ht.
Qed.

Lemma restored_intro tr0 orig c rc ext rg t4 :
  Forall (fun ev => no_click ev.1) tr0 -> Forall (fun ev => no_click ev.1) ext ->
  ((rg = None /\ t4 = []) \/
   (rg <> None /\ exists rw, t4 = [(PWaitLoad main_page "networkidle", rw)])) ->
  restored_after_click
    ((((tr0 ++ [(PUrl main_page, Some (RStr (Some orig)))]) ++ [(EClick c, rc)]) ++ ext) ++
      [(PGoto main_page orig, rg)] ++ t4)%list.
Proof.
  intros H0 He Ht4 t1 c' rc' t2 Heq.
  assert (Heq' : ((tr0 ++ [(PUrl main_page, Some (RStr (Some orig)))]) ++
                   (EClick c, rc) :: (ext ++ (PGoto main_page orig, rg) :: t4))%list =
                 (t1 ++ (EClick c', rc') :: t2)%list).
  { rewrite <- Heq. rewrite <- !app_assoc. reflexivity. }
  clear Heq. apply (unique_split (fun ev => ~ no_click ev.1)) in Heq' as (-> & _ & ->).
  - exists tr0, orig, ext, rg, t4. done.
  - simpl. tauto.
  - apply Forall_app. split; [|repeat constructor; simpl; tauto].
    eapply Forall_impl; [exact H0|]. simpl. tauto.
  - apply Forall_app. split; [eapply Forall_impl; [exact He|]; simpl; tauto|].
    constructor; [simpl; tauto|].
    destruct Ht4 as [[_ ->]|[_ [rw ->]]]; repeat constructor; simpl; tauto.
Qed.

Lemma wph_call_unit P (Q : list Event -> unit -> Prop) E S tr o :
  P tr o -> (forall r, Q (tr ++ [(o, Some r)])%list tt) ->
  E (tr ++ [(o, None)])%list DriverError ->
  wph P Q E S tr (call_unit o).
Proof. intros HP HQ HE. unfold call_unit. cbn [wph]. split; [done|]. intros [r|]; cbn [wph]; auto. Qed.

Lemma wph_click_navigate_extract cfg tr0 c orig wf :
  Forall (fun ev => no_click ev.1) tr0 ->
  wph (fun _ _ => True) (fun tr _ => restored_after_click tr) (fun _ _ => False) (fun _ => False)
    (tr0 ++ [(PUrl main_page, Some (RStr (Some orig)))])%list (click_navigate_extract cfg c orig wf).
Proof.
  intros H0. unfold click_navigate_extract.
  set (T := (tr0 ++ [(PUrl main_page, Some (RStr (Some orig)))])%list).
  apply (wph_catch _ _ (fun tr _ => exists rc, ext_by no_click (T ++ [(EClick c, rc)])%list tr)).
  - apply wph_call_unit_bind; [exact I | intros rc | exists None; apply ext_by_refl].
    set (T' := (T ++ [(EClick c, Some rc)])%list).
    apply (wph_bind _ (fun tr _ => ext_by no_click T' tr)).
    { repeat case_match; (apply wph_call_unit; [exact I | intros; ext_solve | exists (Some rc); ext_solve]). }
    intros tr1 _ Hx.
    apply wph_call_unit_bind; [exact I | intros ? | exists (Some rc); ext_solve].
    apply (wph_bind _ (fun tr _ => ext_by no_click T' tr)).
    { apply wph_extract_fields_of; [intros; exact I | done |].
      intros tr'' d Hr. eapply ext_by_trans; [|eapply ext_by_weaken; [|exact Hr]].
      - ext_solve.
      - by intros []. }
    intros tr2 d Hx2. unfold navigate_back.
    apply (wph_bind _ (fun tr _ => exists rg rw, tr = (tr2 ++ [(PGoto main_page orig, Some rg)] ++
                                                         [(PWaitLoad main_page "networkidle", Some rw)])%list)).
    { apply wph_call_unit_bind; [exact I | intros rg | exists (Some rc); ext_solve].
      apply wph_call_unit; [exact I | intros rw; exists rg, rw; by rewrite <- app_assoc
                           | exists (Some rc); ext_solve]. }
    intros tr3 _ (rg & rw & ->). apply wph_ret.
    destruct Hx2 as [ext [-> Hext]].
    apply restored_intro; [done|done|]. right. split; [discriminate|eauto].
  - intros tr1 e [rc Hx].
    set (X := fun tr : list Event => exists rg t4,
                tr = (tr1 ++ [(PGoto main_page orig, rg)] ++ t4)%list /\
                ((rg = None /\ t4 = []) \/
                 (rg <> None /\ exists rw, t4 = [(PWaitLoad main_page "networkidle", rw)]))).
    apply (wph_bind _ (fun tr _ => X tr)).
    + apply (wph_catch _ _ (fun tr _ => X tr)); [|intros; by apply wph_ret].
      unfold navigate_back.
      apply (wph_bind _ (fun tr _ => exists rg, rg <> None /\ tr = (tr1 ++ [(PGoto main_page orig, rg)])%list)).
      * apply wph_call_unit; [exact I | intros r; exists (Some r); split; [discriminate|done] |].
        exists None, []. split; [by rewrite app_nil_r|left; done].
      * intros tr' _ (rg & Hrg & ->).
        apply wph_call_unit; [exact I | intros rw | ].
        -- exists rg, [(PWaitLoad main_page "networkidle", Some rw)].
           split; [by rewrite <- app_assoc|right; eauto].
        -- exists rg, [(PWaitLoad main_page "networkidle", None)].
           split; [by rewrite <- app_assoc|right; eauto].
    + intros tr' _ (rg & t4 & -> & Hd). apply wph_ret.
      destruct Hx as [ext [-> Hext]].
      by apply restored_intro.
Qed.

Lemma no_click_ext R tr tr' :
  ext_by R tr tr' -> (forall o, R o -> no_click o) ->
  Forall (fun ev => no_click ev.1) tr -> Forall (fun ev => no_click ev.1) tr'.
Proof.
  intros [ext [-> He]] HR Ht. apply Forall_app. split; [done|].
  eapply Forall_impl; [exact He|]. auto.
Qed.

Lemma no_click_snoc (tr : list Event) o r :
  Forall (fun ev => no_click ev.1) tr -> no_click o -> Forall (fun ev => no_click ev.1) (tr ++ [(o, r)])%list.
Proof. intros. apply Forall_app. auto. Qed.

Lemma wph_handle_click_workflow_by_index cfg tr i wf :
  Forall (fun ev => no_click ev.1) tr ->
  wph (fun _ _ => True) (fun tr _ => restored_after_click tr) (fun _ _ => False) (fun _ => False)
    tr (handle_click_workflow_by_index cfg i wf).
Proof.
  intros Htr. unfold handle_click_workflow_by_index.
  case_match; [|by apply wph_ret, restored_no_click].
  apply (wph_catch _ _ (fun tr _ => Forall (fun ev => no_click ev.1) tr));
    [|intros; by apply wph_ret, restored_no_click].
  unfold call_handle. wph_call0; [exact I|].
  intros [[| | |[c|]|]|]; wph_reduce; try (apply no_click_snoc; [done|exact I]);
    [|apply restored_no_click, no_click_snoc; [done|exact I]].
  apply (wph_bind _ (fun tr _ => Forall (fun ev => no_click ev.1) tr)).
  { eapply wph_of_wp; [apply wp_is_element_clickable | done | | by intros ? ? ? ? | by intros ? ? ?].
    intros tr' _ Hx _. eapply no_click_ext; [exact Hx| |].
    - by intros [].
    - apply no_click_snoc; [done|exact I]. }
  intros tr' ok Hf. destruct (negb ok); [by apply wph_ret, restored_no_click|].
  unfold page_url_of. wph_call0; [exact I|].
  intros [[| |[orig|]| |]|]; wph_reduce; try (apply no_click_snoc; [done|exact I]).
  eapply wph_mono; [by apply wph_click_navigate_extract | done | done | by intros ? ? [] | done].
Qed.

Lemma wph_handle_click_workflow cfg tr item wf :
  Forall (fun ev => no_click ev.1) tr ->
  wph (fun _ _ => True) (fun tr _ => restored_after_click tr) (fun tr _ => Forall (fun ev => no_click ev.1) tr)
    (fun _ => False) tr (handle_click_workflow cfg item wf).
Proof.
  intros Htr. unfold handle_click_workflow.
  apply (wph_bind _ (fun tr _ => Forall (fun ev => no_click ev.1) tr)).
  - apply (wph_catch _ _ (fun tr _ => Forall (fun ev => no_click ev.1) tr)); [|intros; by apply wph_ret].
    unfold call_handle. wph_call0; [exact I|].
    intros [[| | |[c|]|]|]; wph_reduce; try (apply no_click_snoc; [done|exact I]).
    apply (wph_bind _ (fun tr _ => Forall (fun ev => no_click ev.1) tr)).
    { eapply wph_of_wp; [apply wp_is_element_clickable | done | | by intros ? ? ? ? | by intros ? ? ?].
      intros tr' _ Hx _. eapply no_click_ext; [exact Hx| |].
      - by intros [].
      - apply no_click_snoc; [done|exact I]. }
    intros tr' ok Hf. by apply wph_ret.
  - intros tr' [c|] Hf; [|by apply wph_ret, restored_no_click].
    unfold page_url_of. rewrite bind_call. wph_call0; [exact I|].
    intros [[| |[orig|]| |]|]; wph_reduce; try (apply no_click_snoc; [done|exact I]).
    eapply wph_mono; [by apply wph_click_navigate_extract | done | done | by intros ? ? [] | done].
Qed.

(** C1: in both click handlers, every click on a found, clickable target
    element is made right after the main-page URL [orig] is read, and the
    handler's calls end with a [goto] of the main page back to [orig],
    followed by the wait for its load whenever the [goto] itself returned;
    this holds whether the wait, the extraction or the first return raised.
    The by-index handler always returns (a failed return is caught); the
    element variant can raise only before any click. *)
Theorem click_workflow_returns_to_original_url cfg orc h i item wf :
  match run orc h (handle_click_workflow_by_index cfg i wf) with
  | (t, Done _) => restored_after_click t
  | _ => False
  end /\
  match run orc h (handle_click_workflow cfg item wf) with
  | (t, Done _) => restored_after_click t
  | (t, Raised _) => Forall (fun ev => no_click ev.1) t
  | (_, Stalled) => False
  end.
Proof.
  split.
  - destruct (wph_run _ _ _ _ [] _ orc h (wph_handle_click_workflow_by_index cfg [] i wf (Forall_nil_2 _)))
      as [_ Hout].
    destruct (run orc h _) as [t [a|e|]]; exact Hout.
  - destruct (wph_run _ _ _ _ [] _ orc h (wph_handle_click_workflow cfg [] item wf (Forall_nil_2 _)))
      as [_ Hout].
    destruct (run orc h _) as [t [a|e|]]; exact Hout.
Qed.

Lemma clickable_vs_spec orc h el :
  (run orc h (is_element_clickable el)).2 = (run orc h (clickable_by_spec el)).2 /\
  (run orc h (clickable_by_spec el)).1 `prefix_of` (run orc h (is_element_clickable el)).1.
Proof.
  unfold is_element_clickable, clickable_by_spec, call_str, call_bool, py_float, mbind, drv_mbind.
  repeat (cbn [run drv_bind catch fst snd py_float] in *; case_match);
    cbn [run drv_bind catch fst snd] in *; simplify_eq; try congruence; (split; [reflexivity|eexists; cbn; reflexivity]).
Qed.

Example clickable_examples :
  (run (style_oracle "btn btn-disabled" "1") [] (is_element_clickable 3)).2 = Done false /\
  (run (style_oracle "btn" "0.05") [] (is_element_clickable 3)).2 = Done false /\
  (run (style_oracle "btn" "1") [] (is_element_clickable 3)).2 = Done true.
Proof. vm_compute. auto. Qed.

(** C7: for every browser and element, [_is_element_clickable] returns
    (it never raises), and its result is that of the six checks made in
    the specification's order, each returning [False] at once, with any
    error giving [False] ([clickable_by_spec]); the calls of
    [clickable_by_spec] are the first calls of the code, which reads the
    opacity before it tests pointer-events. *)
Theorem clickable_matches_spec orc h el :
  (exists b, (run orc h (is_element_clickable el)).2 = Done b) /\
  (run orc h (is_element_clickable el)).2 = (run orc h (clickable_by_spec el)).2 /\
  (run orc h (clickable_by_spec el)).1 `prefix_of` (run orc h (is_element_clickable el)).1.
Proof.
  destruct (clickable_vs_spec orc h el) as [Heq Hpre].
  split; [|done].
  destruct (wp_run _ _ _ _ _ orc h (wp_is_element_clickable el)) as [_ Hout].
  destruct (run orc h (is_element_clickable el)).2 as [b|e|]; [by exists b|done|done].
Qed.

Lemma wp_true {A} (m : Drv A) : wp (fun _ => True) (fun _ => True) (fun _ => True) True m.
Proof. induction m; simpl; auto. Qed.

Lemma wp_true_bind {A B} (Q : B -> Prop) (m : Drv A) (f : A -> Drv B) :
  (forall a, wp (fun _ => True) Q (fun _ => True) True (f a)) ->
  wp (fun _ => True) Q (fun _ => True) True (m ≫= f).
Proof.
  intros Hf. apply (wp_bind _ (fun _ => True)); [|auto].
  eapply wp_mono; [apply wp_true|..]; auto.
Qed.

Lemma wp_process_item cfg i item :
  wp (fun _ => True) (fun r => workflow_path r = []) (fun _ => True) True (process_item cfg i item).
Proof.
  unfold process_item.
  apply wp_true_bind; intros ?. apply wp_true_bind; intros ?.
  apply wp_true_bind; intros ?. apply wp_true_bind; intros ?.
  by apply wp_ret.
Qed.

Lemma wp_items_loop cfg its i remaining :
  wp (fun _ => True) (Forall (fun r => workflow_path r = [])) (fun _ => True) True
    (items_loop cfg its i remaining).
Proof.
  revert i; induction remaining as [|rem IH]; intros i; cbn [items_loop].
  - by apply wp_ret.
  - apply wp_true_bind; intros items.
    destruct (_ <=? _); [by apply wp_ret|].
    destruct (items !! i) as [item|]; [|done].
    apply (wp_bind _ (fun r => workflow_path r = [])); [apply wp_process_item|].
    intros r Hr. apply (wp_bind _ (Forall (fun r => workflow_path r = []))); [apply IH|].
    intros rest Hrest. apply wp_ret. by constructor.
Qed.

Lemma wp_extract_page_data cfg :
  wp (fun _ => True) (Forall (fun r => workflow_path r = [])) (fun _ => True) True
    (extract_page_data cfg).
Proof.
  unfold extract_page_data. case_match; [|by apply wp_ret].
  apply wp_true_bind; intros items. apply wp_items_loop.
Qed.

Lemma wp_crawl_loop cfg fuel page_number collected :
  Forall (fun r => workflow_path r = []) collected ->
  wp (fun _ => True) (Forall (fun r => workflow_path r = [])) (fun _ => True) True
    (crawl_loop cfg fuel page_number collected).
Proof.
  revert page_number collected; induction fuel as [|f IH]; intros page_number collected Hc;
    cbn [crawl_loop]; [done|].
  apply wp_true_bind; intros url. apply wp_true_bind; intros [].
  apply (wp_bind _ (Forall (fun r => workflow_path r = []))); [apply wp_extract_page_data|].
  intros rs Hrs. assert (Hall : Forall (fun r => workflow_path r = []) (app collected rs))
    by (apply Forall_app; auto).
  destruct (max_pages_reached cfg page_number); [by apply wp_ret|].
  apply wp_true_bind; intros adv. destruct (negb adv); [by apply wp_ret|].
  by apply IH.
Qed.

Lemma workflow_usage_zero rs t :
  Forall (fun r => workflow_path r = []) rs -> workflow_usage (get_extraction_summary rs t) = 0.
Proof.
  intros H. cbn [workflow_usage get_extraction_summary].
  induction H as [|r rs Hr _ IH]; [done|].
  rewrite filter_cons, bool_decide_eq_false_2; [exact IH|]. intros Hne. by apply Hne.
Qed.

(** C10: every result of a page's extraction, and of the whole crawl, has
    an empty [workflow_path], whatever the configuration and the browser;
    the workflow-usage count of the summary of the crawl's results is 0. *)
Theorem workflow_path_always_empty cfg fuel orc h :
  match (run orc h (extract_page_data cfg)).2 with
  | Done rs => Forall (fun r => workflow_path r = []) rs
  | _ => True
  end /\
  match run orc h (crawl_with_workflows cfg fuel) with
  | (t, Done rs) => Forall (fun r => workflow_path r = []) rs /\
                    workflow_usage (get_extraction_summary rs t) = 0
  | _ => True
  end.
Proof.
  split.
  - destruct (wp_run _ _ _ _ _ orc h (wp_extract_page_data cfg)) as [_ Hout].
    by destruct (run orc h (extract_page_data cfg)).2.
  - assert (Hw : wp (fun _ => True) (Forall (fun r => workflow_path r = [])) (fun _ => True) True
                   (crawl_with_workflows cfg fuel)).
    { unfold crawl_with_workflows. apply wp_true_bind; intros [].
      apply wp_true_bind; intros []. by apply wp_crawl_loop. }
    destruct (wp_run _ _ _ _ _ orc h Hw) as [_ Hout].
    destruct (run orc h (crawl_with_workflows cfg fuel)) as [t [rs| |]]; [|done|done].
    split; [done|]. by apply workflow_usage_zero.
Qed.

Lemma wp_field_for_current_page fpu cur :
  wp (fun _ => True) (fun _ => True) not_index_error True (field_for_current_page fpu cur).
Proof. unfold field_for_current_page. case_match; done. Qed.

Lemma wp_extract_item_fields_no_index item cur sels acc :
  wp (fun _ => True) (fun _ => True) not_index_error True (extract_item_fields item cur sels acc).
Proof.
  revert acc; induction sels as [|s sels IH]; intros acc; cbn [extract_item_fields]; [done|].
  destruct (negb _); [apply IH|].
  apply (wp_bind _ (fun _ => True)).
  { repeat case_match; try done. apply wp_field_for_current_page. }
  intros b _. destruct (negb b); [apply IH|].
  apply (wp_bind _ (fun _ => True)); [|intros; apply IH].
  apply (wp_catch _ _ (fun _ => True)); [|intros; by apply wp_ret].
  eapply wp_mono; [apply wp_true|..]; done.
Qed.

Lemma wp_execute_workflows_no_index cfg i :
  wp (fun _ => True) (fun _ => True) not_index_error True (execute_workflows_by_index cfg i).
Proof.
  unfold execute_workflows_by_index. case_match; [|done].
  generalize (∅ : Dict) as acc. induction (workflows cfg) as [|wf wfs IH]; intros acc;
    cbn [execute_workflows_loop]; [done|].
  apply (wp_bind _ (fun _ => True)); [|intros; apply IH].
  apply (wp_catch _ _ (fun _ => True)); [|intros; by apply wp_ret].
  eapply wp_mono; [apply wp_true|..]; done.
Qed.

Lemma wp_process_item_no_index cfg i item :
  wp (fun _ => True) (fun _ => True) not_index_error True (process_item cfg i item).
Proof.
  unfold process_item, extract_item_data.
  apply (wp_bind _ (fun _ => True)).
  { apply (wp_bind _ (fun _ => True)); [by apply wp_page_url_of|].
    intros. apply wp_extract_item_fields_no_index. }
  intros. apply (wp_bind _ (fun _ => True)).
  { case_match; [done|]. apply (wp_bind _ (fun _ => True)); [apply wp_execute_workflows_no_index|done]. }
  intros. apply (wp_bind _ (fun _ => True)); [by apply wp_page_url_of|].
  intros. apply (wp_bind _ (fun _ => True)); [by apply wp_call_str|done].
Qed.

Lemma wp_items_loop_no_index cfg its i remaining :
  wp (fun _ => True) (fun _ => True) not_index_error True (items_loop cfg its i remaining).
Proof.
  revert i; induction remaining as [|rem IH]; intros i; cbn [items_loop]; [done|].
  apply (wp_bind _ (fun _ => True)); [by apply wp_call_handles|].
  intros items _. destruct (List.length items <=? i) eqn:Hlen; [done|].
  apply Nat.leb_gt in Hlen.
  destruct (lookup_lt_is_Some_2 items i Hlen) as [item ->].
  apply (wp_bind _ (fun _ => True)); [apply wp_process_item_no_index|].
  intros. apply (wp_bind _ (fun _ => True)); [apply IH|done].
Qed.

Lemma wp_extract_page_data_no_index cfg :
  wp (fun _ => True) (fun _ => True) not_index_error True (extract_page_data cfg).
Proof.
  unfold extract_page_data. case_match; [|done].
  apply (wp_bind _ (fun _ => True)); [by apply wp_call_handles|].
  intros. apply wp_items_loop_no_index.
Qed.

(** C9: each pass of the item loop starts with a fresh query of the items;
    when the live count is at most the index [i], the loop stops there and
    returns normally with no result for [i], having made only that query;
    and the extraction of a page never ends in [IndexError]. *)
Theorem items_loop_live_count cfg its i rem orc h items :
  orc h (PQueryAll main_page (selector its)) = Some (RHandles items) ->
  List.length items <= i ->
  run orc h (items_loop cfg its i (S rem)) =
    ([(PQueryAll main_page (selector its), Some (RHandles items))], Done []) /\
  (forall orc' h' j rem', exists r t,
     (run orc' h' (items_loop cfg its j (S rem'))).1 = (PQueryAll main_page (selector its), r) :: t) /\
  (forall orc' h', (run orc' h' (extract_page_data cfg)).2 <> Raised IndexError).
Proof.
  intros Hq Hlen. split; [|split].
  - cbn [items_loop run]. rewrite run_bind. cbn [run call_handles]. rewrite Hq. cbn.
    apply Nat.leb_le in Hlen. rewrite Hlen. reflexivity.
  - intros orc' h' j rem'. cbn [items_loop]. rewrite run_bind. cbn [run call_handles].
    destruct (run _ _ _) as [t [a|e|]]; cbn; eauto.
  - intros orc' h'.
    destruct (wp_run _ _ _ _ _ orc' h' (wp_extract_page_data_no_index cfg)) as [_ Hout].
    destruct (run orc' h' (extract_page_data cfg)).2; [done| |done].
    intros [= ->]. by apply Hout.
Qed.

Lemma items_loop_live_count_witness :
  (orc_one_item [] (PQueryAll main_page (selector its_row)) = Some (RHandles [10]) /\
   List.length [10] <= 1) /\
  (run orc_one_item [] (items_loop cfg_new_tab its_row 1 1) =
     ([(PQueryAll main_page (selector its_row), Some (RHandles [10]))], Done []) /\
   (forall orc' h' j rem', exists r t,
      (run orc' h' (items_loop cfg_new_tab its_row j (S rem'))).1 =
        (PQueryAll main_page (selector its_row), r) :: t) /\
   (forall orc' h', (run orc' h' (extract_page_data cfg_new_tab)).2 <> Raised IndexError)).
Proof.
  split; [split; [reflexivity | simpl; lia]|].
  apply (items_loop_live_count cfg_new_tab its_row 1 0 orc_one_item [] [10]);
    [reflexivity | simpl; lia].
Defined.

(** C4 (as the code has it): with no [items_container] selection, the
    extraction of a page makes no call and returns no result, and a crawl
    that returns has collected no result; nothing is raised for it. *)
Theorem no_items_container_not_raised cfg :
  get_items_selector cfg = None ->
  (forall orc h, run orc h (extract_page_data cfg) = ([], Done [])) /\
  (forall fuel orc h t rs, run orc h (crawl_with_workflows cfg fuel) = (t, Done rs) -> rs = []).
Proof.
  intros Hnone. assert (He : extract_page_data cfg = Ret []).
  { unfold extract_page_data. by rewrite Hnone. }
  split; [intros; by rewrite He|].
  intros fuel orc h t rs Hrun. revert Hrun.
  assert (Hw : wp (fun _ => True) (fun rs => rs = []) (fun _ => True) True
                 (crawl_with_workflows cfg fuel)).
  { unfold crawl_with_workflows. apply wp_true_bind; intros []. apply wp_true_bind; intros [].
    generalize 1%Z as pn. induction fuel as [|f IH]; intros pn; cbn [crawl_loop]; [done|].
    apply wp_true_bind; intros url. apply wp_true_bind; intros []. rewrite He, bind_ret.
    cbn [app]. destruct (max_pages_reached cfg pn); [by apply wp_ret|].
    apply wp_true_bind; intros adv. destruct (negb adv); [by apply wp_ret|]. apply IH. }
  intros Hrun.
  destruct (wp_run _ _ _ _ _ orc h Hw) as [_ Hout]. rewrite Hrun in Hout. exact Hout.
Qed.

Lemma no_items_container_not_raised_witness :
  get_items_selector cfg_no_items = None /\
  ((forall orc h, run orc h (extract_page_data cfg_no_items) = ([], Done [])) /\
   (forall fuel orc h t rs,
      run orc h (crawl_with_workflows cfg_no_items fuel) = (t, Done rs) -> rs = [])).
Proof.
  split; [reflexivity|]. apply no_items_container_not_raised. reflexivity.
Defined.

(** C4: with no [items_container] selection the crawl loads the base URL,
    enters the page loop (page 1 is recorded in the navigation history),
    and returns its empty result normally: the run is not ended by an
    error surfaced to the caller. *)
Lemma no_items_container_crawl_returns :
  get_items_selector cfg_no_items = None /\
  run orc_ok [] (crawl_with_workflows cfg_no_items 5) =
    ([(PGoto main_page "https://x.com/list", Some RUnit);
      (PWaitLoad main_page "networkidle", Some RUnit);
      (PUrl main_page, Some (RStr (Some "https://x.com/list")));
      (HistAppend "https://x.com/list" 1, Some RUnit)], Done []).
Proof. split; vm_compute; reflexivity. Qed.

Lemma find_matching_no_match orc original els h :
  no_text_matches orc original ->
  Forall (fun ev => exists e, ev.1 = EText e) (run orc h (find_matching_pagination original els)).1 /\
  ((run orc h (find_matching_pagination original els)).2 = Done None \/
   exists ex, (run orc h (find_matching_pagination original els)).2 = Raised ex).
Proof.
  intros Hno. revert h; induction els as [|el els IH]; intros h; cbn [find_matching_pagination].
  - split; [constructor | by left].
  - rewrite run_bind. cbn [run call_str].
    assert (Hrest : forall r,
      Forall (fun ev => exists e, ev.1 = EText e)
        ((EText el, r) :: (run orc (h ++ [(EText el, r)]) (find_matching_pagination original els)).1) /\
      ((run orc (h ++ [(EText el, r)]) (find_matching_pagination original els)).2 = Done None \/
       exists ex, (run orc (h ++ [(EText el, r)]) (find_matching_pagination original els)).2 = Raised ex)).
    { intros r. destruct (IH (h ++ [(EText el, r)])%list) as [H1 H2]. split; [|done].
      constructor; [by exists el | done]. }
    destruct (orc h (EText el)) as [[| |[t|]| |]|] eqn:Ho; cbn [run fst snd];
      try (split; [repeat constructor; by exists el | right; eauto]).
    + destruct (Py.truthy (Some t)) eqn:Ht; [|apply Hrest].
      destruct (Hno h el t Ho) as (H1 & H2 & H3).
      { intros ->. discriminate. }
      cbv zeta in *. rewrite H1, H2, (proj2 (String.eqb_neq _ _) H3). apply Hrest.
    + apply Hrest.
Qed.

(** C3 (as the code has it): in [AdvancedCrawler], when the pagination
    selection has a non-empty [original_content] and no non-empty text read
    from a candidate, trimmed and lowercased, contains, is contained in or
    equals the trimmed, lowercased [original_content], the controller
    returns [False] and makes no click. *)
Theorem advanced_no_match_no_click cfg pc orc h :
  pagination_config cfg = Some pc -> Py.truthy (original_content pc) = true ->
  no_text_matches orc (Py.lower (Py.strip (default "" (original_content pc)))) ->
  exists t, run orc h (navigate_to_next_page cfg) = (t, Done false) /\ Forall (fun ev => no_click ev.1) t.
Proof.
  intros Hpc Htr Hno. unfold navigate_to_next_page. rewrite Hpc, run_catch, run_bind.
  cbn [run call_handles fst snd].
  destruct (orc h (PQueryAll main_page (selector pc))) as [[| | | |els]|] eqn:Hq;
    cbn [run fst snd app]; try (eexists; split; [reflexivity | repeat constructor]).
  destruct els as [|first rest]; cbn [run fst snd app]; [eexists; split; [reflexivity | repeat constructor]|].
  rewrite Htr, run_bind.
  match goal with
  | |- context [run orc ?hh (find_matching_pagination ?o ?l)] =>
      destruct (find_matching_no_match orc o l hh Hno) as [Hf Hd];
      destruct (run orc hh (find_matching_pagination o l)) as [tf [a|ex|]]
  end; cbn [fst snd] in Hf, Hd; destruct Hd as [Hd|[ex' Hd]]; try discriminate.
  - injection Hd as ->. cbn [run fst snd app].
    eexists; split; [reflexivity|].
    constructor; [exact I|]. rewrite app_nil_r. eapply Forall_impl; [exact Hf|].
    by intros ev [e ->].
  - cbn [run fst snd app].
    eexists; split; [reflexivity|].
    constructor; [exact I|]. rewrite app_nil_r. eapply Forall_impl; [exact Hf|].
    by intros ev [e ->].
Qed.

Lemma advanced_no_match_no_click_witness :
  (pagination_config cfg_next = Some pagination_next /\
   Py.truthy (original_content pagination_next) = true /\
   no_text_matches orc_prev (Py.lower (Py.strip (default "" (original_content pagination_next))))) /\
  exists t, run orc_prev [] (navigate_to_next_page cfg_next) = (t, Done false) /\
            Forall (fun ev => no_click ev.1) t.
Proof.
  assert (Hno : no_text_matches orc_prev
                  (Py.lower (Py.strip (default "" (original_content pagination_next))))).
  { intros h e t Ho _. injection Ho as <-. vm_compute.
    split; [reflexivity | split; [reflexivity | discriminate]]. }
  split; [split; [reflexivity | split; [reflexivity | exact Hno]]|].
  apply (advanced_no_match_no_click cfg_next pagination_next orc_prev []);
    [reflexivity | reflexivity | exact Hno].
Defined.

(** C3, the two controllers: on the same page, whose one candidate reads
    ["Prev"] while [original_content] is ["Next"], [AdvancedCrawler] returns
    [False] without clicking, and [PaginatedCrawler] falls back to the first
    candidate, clicks it and returns [True] with the page counter at 2. *)
Lemma pagination_controllers_differ :
  run orc_prev [] (navigate_to_next_page cfg_next) =
    ([(PQueryAll main_page "a.page", Some (RHandles [5]));
      (EText 5, Some (RStr (Some "Prev")))], Done false) /\
  (run orc_prev [] (core_navigate_to_next_page core_cfg_next 1)).2 = Done (true, 2%Z) /\
  In (EClick 5, Some RUnit) (run orc_prev [] (core_navigate_to_next_page core_cfg_next 1)).1.
Proof.
  split; [vm_compute; reflexivity|]. split; [vm_compute; reflexivity|].
  vm_compute. do 9 right. left. reflexivity.
Qed.

Ltac nh_step :=
  match goal with
  | |- wp _ _ _ _ (Ret _) => exact I
  | |- wp _ _ _ _ (Throw _) => exact I
  | |- wp _ _ _ _ Stall => exact I
  | |- wp _ _ _ _ (Call _ _) => cbn [wp]; split; [first [exact I | auto] | intros ?]
  | |- wp _ _ _ _ (_ ≫= _) => apply (wp_bind _ (fun _ => True)); [| intros ? _]
  | |- wp _ _ _ _ (catch _ _) => apply (wp_catch _ _ (fun _ => True)); [| intros ? _]
  | |- wp _ _ _ _ (finally _ _) => apply wp_finally
  | |- wp _ _ _ _ (let _ := _ in _) => cbv zeta
  | |- wp _ _ _ _ (match ?x with _ => _ end) => destruct x
  | |- wp _ _ _ _ (if ?x then _ else _) => destruct x
  end.

Lemma nh_extract_item_fields item cur sels acc : nh (extract_item_fields item cur sels acc).
Proof.
  unfold nh. revert acc; induction sels as [|s sels IH]; intros acc; cbn [extract_item_fields]; [done|].
  unfold field_for_current_page, extract_element_value, call_str, call_unit, call_handle, page_url_of in *.
  repeat (first [apply IH | nh_step]).
Qed.

Lemma nh_extract_workflow_fields cfg query fs acc :
  (forall s, not_hist (query s)) -> nh (extract_workflow_fields cfg query fs acc).
Proof.
  unfold nh. intros Hq. revert acc; induction fs as [|f fs IH]; intros acc; cbn [extract_workflow_fields]; [done|].
  unfold extract_element_value, call_str, call_unit, call_handle, page_url_of in *.
  repeat (first [apply IH | nh_step]).
Qed.

Ltac nh_unfold := unfold nh, extract_element_value, field_for_current_page, call_str, call_unit,
  call_handle, call_handles, call_page, call_bool, page_url_of, record, extract_fields_of,
  navigate_back, click_navigate_extract, handle_click_workflow_by_index, handle_extract_workflow_by_index,
  resolve_href, new_tab_from_link, handle_new_tab_workflow_by_index, execute_workflow_step_by_index,
  execute_workflows_by_index, process_item, extract_item_data, extract_page_data,
  navigate_to_next_page, is_element_clickable, py_float in *.

Ltac nh_go lemmas :=
  repeat first [ lemmas | nh_step | progress nh_unfold ].

Lemma nh_execute_workflows_loop cfg i wfs acc : nh (execute_workflows_loop cfg i wfs acc).
Proof.
  revert acc; induction wfs as [|wf wfs IH]; intros acc; cbn [execute_workflows_loop]; nh_unfold; [done|].
  nh_go ltac:(first [ apply IH | apply nh_extract_workflow_fields; intros; exact I ]).
Qed.

Lemma nh_items_loop cfg its i rem : nh (items_loop cfg its i rem).
Proof.
  revert i; induction rem as [|rem IH]; intros i; cbn [items_loop]; nh_unfold; [done|].
  nh_go ltac:(first [ apply IH | apply nh_execute_workflows_loop | apply nh_extract_item_fields ]).
Qed.

Lemma nh_extract_page_data cfg : nh (extract_page_data cfg).
Proof. nh_unfold. nh_go ltac:(apply nh_items_loop). Qed.

Lemma nh_find_matching_pagination o els : nh (find_matching_pagination o els).
Proof.
  induction els as [|e els IH]; cbn [find_matching_pagination]; nh_unfold; [done|].
  nh_go ltac:(apply IH).
Qed.

Lemma nh_navigate_to_next_page cfg : nh (navigate_to_next_page cfg).
Proof. nh_unfold. nh_go ltac:(apply nh_find_matching_pagination). Qed.

Lemma navigation_history_app t1 t2 :
  (navigation_history (t1 ++ t2) = navigation_history t1 ++ navigation_history t2)%list.
Proof. induction t1 as [|[o r] t1 IH]; [done|]. destruct o; simpl; rewrite IH; done. Qed.

Lemma navigation_history_nh {A} (m : Drv A) orc h :
  nh m -> navigation_history (run orc h m).1 = [].
Proof.
  intros Hm. destruct (wp_run _ _ _ _ _ orc h Hm) as [Hall _].
  induction Hall as [|[o r] t Ho _ IH]; [done|]. destruct o; simpl in *; done.
Qed.

(** the page loop from page [q] records pages [q], [q+1], ... and no page
    past [max_pages] *)
Lemma crawl_loop_history cfg N fuel q coll orc h :
  max_pages cfg = Some N -> (1 <= q)%nat -> (Z.of_nat q <= N)%Z ->
  exists k, (Z.of_nat (q + k) <= N + 1)%Z /\
    map snd (navigation_history (run orc h (crawl_loop cfg fuel (Z.of_nat q) coll)).1) =
    map Z.of_nat (seq q k).
Proof.
  intros Hmax. revert q coll h; induction fuel as [|f IH]; intros q coll h Hq HqN.
  { exists 0. split; [lia|done]. }
  cbn [crawl_loop]. rewrite run_bind. cbn [run page_url_of fst snd].
  destruct (orc h (PUrl main_page)) as [[| |[u|]| |]|]; try (exists 0; split; [lia|done]).
  cbn [run fst snd app]. rewrite run_bind. cbn [run record fst snd app].
  rewrite run_bind.
  match goal with |- context [run orc ?hh (extract_page_data cfg)] =>
    pose proof (navigation_history_nh _ orc hh (nh_extract_page_data cfg)) as Hne;
    destruct (run orc hh (extract_page_data cfg)) as [te [rs|e|]] end;
  cbn [fst snd] in *;
    try (exists 1; split; [lia|]; cbn; rewrite ?navigation_history_app, Hne; done).
  destruct (max_pages_reached cfg (Z.of_nat q)) eqn:Hr.
  { exists 1. split; [lia|]. cbn. rewrite navigation_history_app, Hne. done. }
  unfold max_pages_reached in Hr. rewrite Hmax in Hr.
  assert (HqN' : (Z.of_nat q < N)%Z).
  { apply andb_false_iff in Hr as [Hr|Hr]; [apply negb_false_iff, Z.eqb_eq in Hr; lia|].
    apply Z.leb_gt in Hr. lia. }
  rewrite run_bind.
  match goal with |- context [run orc ?hh (navigate_to_next_page cfg)] =>
    pose proof (navigation_history_nh _ orc hh (nh_navigate_to_next_page cfg)) as Hnn;
    destruct (run orc hh (navigate_to_next_page cfg)) as [tn [[|]|e|]] end;
  cbn [fst snd negb] in *;
    try (exists 1; split; [lia|]; cbn; rewrite ?navigation_history_app, Hne, ?Hnn; done).
  replace (Z.of_nat q + 1)%Z with (Z.of_nat (S q)) by lia.
  match goal with |- context [run orc ?hh (crawl_loop cfg f _ ?c)] =>
    destruct (IH (S q) c hh ltac:(lia) ltac:(lia)) as [k [Hk Hs]] end.
  exists (S k). split; [lia|].
  cbn [fst navigation_history]. rewrite !navigation_history_app, Hne, Hnn.
  cbn. rewrite Hs. done.
Qed.

Lemma crawl_loop_exact cfg N fuel q coll orc h :
  max_pages cfg = Some (Z.of_nat N) -> (1 <= q <= N)%nat -> (N < q + fuel)%nat ->
  (forall h', exists u, orc h' (PUrl main_page) = Some (RStr (Some u))) ->
  (forall h', exists rs, (run orc h' (extract_page_data cfg)).2 = Done rs) ->
  (forall h', (run orc h' (navigate_to_next_page cfg)).2 = Done true) ->
  (exists rs, (run orc h (crawl_loop cfg fuel (Z.of_nat q) coll)).2 = Done rs) /\
  map snd (navigation_history (run orc h (crawl_loop cfg fuel (Z.of_nat q) coll)).1) =
    map Z.of_nat (seq q (N + 1 - q)).
Proof.
  intros Hmax. revert q coll h; induction fuel as [|f IH]; intros q coll h Hq Hf Hurl Hext Hnav;
    [lia|].
  cbn [crawl_loop]. rewrite run_bind. cbn [run page_url_of fst snd].
  destruct (Hurl h) as [u Hu]. rewrite Hu.
  cbn [run fst snd app]. rewrite run_bind. cbn [run record fst snd app].
  rewrite run_bind.
  match goal with |- context [run orc ?hh (extract_page_data cfg)] =>
    pose proof (navigation_history_nh _ orc hh (nh_extract_page_data cfg)) as Hne;
    destruct (Hext hh) as [rs Hrs];
    destruct (run orc hh (extract_page_data cfg)) as [te oe]; cbn [snd fst] in Hrs, Hne; subst oe end.
  destruct (max_pages_reached cfg (Z.of_nat q)) eqn:Hr.
  - unfold max_pages_reached in Hr. rewrite Hmax in Hr.
    apply andb_true_iff in Hr as [_ Hr]. apply Z.leb_le in Hr.
    replace (N + 1 - q) with 1 by lia.
    split; [eexists; reflexivity|]. cbn. rewrite navigation_history_app, Hne. done.
  - unfold max_pages_reached in Hr. rewrite Hmax in Hr.
    assert (HqN : q < N).
    { apply andb_false_iff in Hr as [Hr|Hr]; [apply negb_false_iff, Z.eqb_eq in Hr; lia|].
      apply Z.leb_gt in Hr. lia. }
    rewrite run_bind.
    match goal with |- context [run orc ?hh (navigate_to_next_page cfg)] =>
      pose proof (navigation_history_nh _ orc hh (nh_navigate_to_next_page cfg)) as Hnn;
      pose proof (Hnav hh) as Hn;
      destruct (run orc hh (navigate_to_next_page cfg)) as [tn on]; cbn [snd fst] in Hn, Hnn;
      subst on end.
    cbn [negb]. replace (Z.of_nat q + 1)%Z with (Z.of_nat (S q)) by lia.
    match goal with |- context [run orc ?hh (crawl_loop cfg f _ ?c)] =>
      destruct (IH (S q) c hh ltac:(lia) ltac:(lia) Hurl Hext Hnav) as [Hd Hs];
      destruct (run orc hh (crawl_loop cfg f _ c)) as [tc oc] end.
    replace (N + 1 - q) with (S (N + 1 - S q)) by lia.
    cbn [fst snd] in *. split; [exact Hd|].
    cbn [navigation_history]. rewrite !navigation_history_app, Hne, Hnn.
    cbn. rewrite Hs. done.
Qed.

(** C5 (as the code has it, for a positive [max_pages = N]): the pages the
    crawl records in its navigation history are [1, 2, ..., k] with
    [k <= N], whatever the browser answers; and when every navigation
    succeeds (a site with more than [N] pages) and each page's load and
    extraction return, the crawl returns normally after exactly the pages
    [1, ..., N]. *)
Theorem max_pages_bounds_crawl cfg N fuel orc h :
  max_pages cfg = Some (Z.of_nat N) -> (0 < N)%nat ->
  (exists k, (k <= N)%nat /\
     map snd (navigation_history (run orc h (crawl_with_workflows cfg fuel)).1) =
     map Z.of_nat (seq 1 k)) /\
  ((forall h', orc h' (PGoto main_page (base_url cfg)) <> None) ->
   (forall h', orc h' (PWaitLoad main_page "networkidle") <> None) ->
   (forall h', exists u, orc h' (PUrl main_page) = Some (RStr (Some u))) ->
   (forall h', exists rs, (run orc h' (extract_page_data cfg)).2 = Done rs) ->
   (forall h', (run orc h' (navigate_to_next_page cfg)).2 = Done true) ->
   (N <= fuel)%nat ->
   (exists rs, (run orc h (crawl_with_workflows cfg fuel)).2 = Done rs) /\
   map snd (navigation_history (run orc h (crawl_with_workflows cfg fuel)).1) =
     map Z.of_nat (seq 1 N)).
Proof.
  intros Hmax HN. unfold crawl_with_workflows. change 1%Z with (Z.of_nat 1).
  rewrite run_bind. cbn [run call_unit fst snd].
  split.
  - destruct (orc h (PGoto main_page (base_url cfg))) as [r|]; cbn [run fst snd app];
      [|exists 0; split; [lia|done]].
    rewrite run_bind. cbn [run call_unit fst snd].
    destruct (orc _ (PWaitLoad main_page "networkidle")) as [r'|]; cbn [run fst snd app];
      [|exists 0; split; [lia|done]].
    match goal with |- context [run orc ?hh (crawl_loop cfg fuel _ [])] =>
      destruct (crawl_loop_history cfg (Z.of_nat N) fuel 1 [] orc hh Hmax ltac:(lia) ltac:(lia))
        as [k [Hk Hs]] end.
    exists k. split; [lia|]. exact Hs.
  - intros Hgo Hwait Hurl Hext Hnav Hf.
    destruct (orc h (PGoto main_page (base_url cfg))) as [r|] eqn:Hr;
      [|exfalso; by apply (Hgo h)].
    cbn [run fst snd app]. rewrite run_bind. cbn [run call_unit fst snd].
    match goal with |- context [orc ?hh (PWaitLoad main_page "networkidle")] =>
      destruct (orc hh (PWaitLoad main_page "networkidle")) as [r'|] eqn:Hr';
      [|exfalso; by apply (Hwait hh)] end.
    cbn [run fst snd app].
    match goal with |- context [run orc ?hh (crawl_loop cfg fuel _ [])] =>
      destruct (crawl_loop_exact cfg N fuel 1 [] orc hh Hmax ltac:(lia) ltac:(lia) Hurl Hext Hnav)
        as [Hd Hs] end.
    replace (N + 1 - 1) with N in Hs by lia. split; [exact Hd | exact Hs].
Qed.

Lemma max_pages_bounds_crawl_witness :
  max_pages (cfg_pages (Some 2%Z)) = Some (Z.of_nat 2) /\ (0 < 2)%nat /\
  (forall h', (run orc_pages h' (navigate_to_next_page (cfg_pages (Some 2%Z)))).2 = Done true) /\
  (exists rs, (run orc_pages [] (crawl_with_workflows (cfg_pages (Some 2%Z)) 5)).2 = Done rs) /\
  map snd (navigation_history (run orc_pages [] (crawl_with_workflows (cfg_pages (Some 2%Z)) 5)).1) =
    map Z.of_nat (seq 1 2).
Proof.
  assert (Hnav : forall h', (run orc_pages h' (navigate_to_next_page (cfg_pages (Some 2%Z)))).2 = Done true).
  { intros h'. vm_compute. reflexivity. }
  split; [reflexivity|]. split; [lia|]. split; [exact Hnav|].
  apply (max_pages_bounds_crawl (cfg_pages (Some 2%Z)) 2 5 orc_pages [] eq_refl ltac:(lia));
    [intros h'; discriminate | intros h'; discriminate | intros h'; eexists; reflexivity
    | intros h'; eexists; reflexivity | exact Hnav | lia].
Defined.

(** C5, [max_pages = 0]: the value is set but falsy, so the check
    [self.config.max_pages and ...] never stops the loop; on a site whose
    pagination always advances, the crawl goes past page [max_pages] and
    keeps going until the model's fuel (4 iterations here) runs out. *)
Lemma max_pages_zero_unbounded :
  max_pages (cfg_pages (Some 0%Z)) = Some 0%Z /\
  (run orc_pages [] (crawl_with_workflows (cfg_pages (Some 0%Z)) 4)).2 = Stalled /\
  map snd (navigation_history (run orc_pages [] (crawl_with_workflows (cfg_pages (Some 0%Z)) 4)).1) =
    [1; 2; 3; 4]%Z.
Proof. split; [reflexivity|]. split; vm_compute; reflexivity. Qed.

Ltac ins_keys :=
  match goal with Hf : find_selection_by_name _ ?f = Some _ |- _ =>
    split; [intros [<-|?]; [right; split; [done|]; rewrite Hf; by eexists | by left]
           | intros [?|[-> _]]; [by right | by left]] end.

Lemma wp_extract_element_value_total el s :
  wp (fun _ => True) (fun _ => True) (fun _ => True) False (extract_element_value el s).
Proof. unfold extract_element_value. repeat case_match; apply wp_call_str; done. Qed.

Lemma wp_extract_workflow_fields_keys cfg query fs acc :
  wp (fun _ => True) (keys_from cfg acc fs) (fun _ => False) False
    (extract_workflow_fields cfg query fs acc).
Proof.
  revert acc; induction fs as [|f fs IH]; intros acc; cbn [extract_workflow_fields].
  { apply wp_ret. intros k. rewrite elem_of_nil. naive_solver. }
  apply (wp_bind _ (keys_from cfg acc [f])).
  - destruct (find_selection_by_name cfg f) as [s|] eqn:Hf.
    + apply (wp_catch _ _ (fun _ => True)).
      * apply (wp_bind _ (fun _ => True)); [apply wp_call_handle; done|].
        intros [el|] _.
        -- apply (wp_bind _ (fun _ => True)); [apply wp_extract_element_value_total|].
           intros v _. apply wp_ret. intros k.
           rewrite lookup_insert_is_Some', list_elem_of_singleton. ins_keys.
        -- apply wp_ret. intros k.
           rewrite lookup_insert_is_Some', list_elem_of_singleton. ins_keys.
      * intros e _. apply wp_ret. intros k.
        rewrite lookup_insert_is_Some', list_elem_of_singleton. ins_keys.
    + apply (wp_catch _ _ (fun _ => False)); [|intros e []].
      apply wp_ret. intros k. rewrite list_elem_of_singleton.
      split; [naive_solver|]. intros [?|[-> Hs]]; [done|]. rewrite Hf in Hs. by destruct Hs.
  - intros d Hd. eapply wp_mono; [apply IH| done | | done | done].
    intros d' Hd' k. specialize (Hd k). specialize (Hd' k).
    rewrite list_elem_of_singleton in Hd. rewrite elem_of_cons. tauto.
Qed.



(* ------------------------------------------------------------------ *)
(** ** Properties of the rest of the code *)

Lemma count_char_prefix c p s :
  String.prefix p s = true -> Py.count_char c p <= Py.count_char c s.
Proof.
  revert s; induction p as [|a p IH]; intros s Hp; [cbn; lia|].
  destruct s as [|b s]; [discriminate|]. cbn in Hp.
  destruct (Ascii.ascii_dec a b) as [->|]; [|discriminate].
  cbn. specialize (IH s Hp). destruct (Ascii.eqb c b); lia.
Qed.

Lemma prefix_refl s : String.prefix s s = true.
Proof. induction s as [|a s IH]; cbn; [done|]. destruct (Ascii.ascii_dec a a); [done|congruence]. Qed.

(** X1: when both URLs parse, [_is_field_for_current_page] accepts a
    field exactly when the two netlocs are equal and the current path,
    without its trailing slashes, starts with the field's path without
    its trailing slashes. *)
Theorem field_scope_is_netloc_and_prefix f c pf pc :
  Url.urlparse f = Some pf -> Url.urlparse c = Some pc ->
  is_field_for_current_page f c =
    Some (String.eqb (Url.netloc pf) (Url.netloc pc) &&
          Py.startswith (Py.rstrip_slash (Url.path pf)) (Py.rstrip_slash (Url.path pc))).
Proof.
  intros Hf Hc. unfold is_field_for_current_page. rewrite Hf, Hc.
  destruct (String.eqb (Url.netloc pf) (Url.netloc pc)); [|done]. cbn [negb andb].
  destruct (String.eqb _ _) eqn:Heq.
  { apply String.eqb_eq in Heq. rewrite Heq. unfold Py.startswith. by rewrite prefix_refl. }
  destruct (Py.split_len "/"%char (Py.rstrip_slash (Url.path pc)) <?
            Py.split_len "/"%char (Py.rstrip_slash (Url.path pf)))%nat eqn:Hlt; [|done].
  apply Nat.ltb_lt in Hlt. unfold Py.split_len in Hlt.
  destruct (Py.startswith (Py.rstrip_slash (Url.path pf)) (Py.rstrip_slash (Url.path pc))) eqn:Hp;
    [|done].
  apply (count_char_prefix "/"%char) in Hp. lia.
Qed.

Lemma field_scope_is_netloc_and_prefix_witness :
  (Url.urlparse "https://x.com/list" = Some (Url.mk_parts "https" "x.com" "/list") /\
   Url.urlparse "https://x.com/listing/2" = Some (Url.mk_parts "https" "x.com" "/listing/2")) /\
  is_field_for_current_page "https://x.com/list" "https://x.com/listing/2" = Some true.
Proof.
  split; [split; reflexivity|].
  exact (field_scope_is_netloc_and_prefix "https://x.com/list" "https://x.com/listing/2"
           (Url.mk_parts "https" "x.com" "/list") (Url.mk_parts "https" "x.com" "/listing/2")
           eq_refl eq_refl).
Defined.

Lemma length_remove_dups {T} `{EqDecision T} (l : list T) : List.length (remove_dups l) <= List.length l.
Proof. induction l as [|x l IH]; cbn; [lia|]. case_decide; cbn; lia. Qed.

(** X4: in [get_extraction_summary], the number of distinct source URLs
    and the number of results with workflow data are at most the number of
    results, and a non-empty result list has at least one source URL. *)
Theorem extraction_summary_bounds rs t :
  unique_sources (get_extraction_summary rs t) <= total_items (get_extraction_summary rs t) /\
  workflow_usage (get_extraction_summary rs t) <= total_items (get_extraction_summary rs t) /\
  (0 < total_items (get_extraction_summary rs t) -> 0 < unique_sources (get_extraction_summary rs t)).
Proof.
  cbn [unique_sources workflow_usage total_items get_extraction_summary].
  split; [|split].
  - rewrite <- (length_map source_url rs). apply length_remove_dups.
  - apply length_filter.
  - intros Hn. destruct rs as [|r rs]; [cbn in Hn; lia|].
    assert (Hin : source_url r ∈ remove_dups (map source_url (r :: rs))).
    { apply elem_of_remove_dups. cbn. by left. }
    destruct (remove_dups _); [by apply elem_of_nil in Hin|cbn; lia].
Qed.

(** X5: [_is_element_clickable] only reads the page (queries, attributes,
    visibility, computed styles) and always returns a boolean: no browser
    error escapes it. *)
Theorem is_element_clickable_read_only orc h el :
  Forall (fun ev => read_op ev.1) (run orc h (is_element_clickable el)).1 /\
  exists b, (run orc h (is_element_clickable el)).2 = Done b.
Proof.
  destruct (wp_run _ _ _ _ _ orc h (wp_is_element_clickable el)) as [Hall Ho].
  split; [exact Hall|]. destruct (run orc h _).2; [by eexists|done|done].
Qed.

Lemma named_keys_empty cfg : named_keys cfg ∅.
Proof. intros k [v Hv]. by rewrite lookup_empty in Hv. Qed.

Lemma named_keys_insert cfg s k v d :
  In s (selections cfg) -> name s = k -> named_keys cfg d -> named_keys cfg (<[k := v]> d).
Proof.
  intros Hs Hk Hd k'. rewrite lookup_insert_is_Some'. intros [<-|H]; [by exists s|by apply Hd].
Qed.

Lemma named_keys_union cfg d1 d2 :
  named_keys cfg d1 -> named_keys cfg d2 -> named_keys cfg (d1 ∪ d2).
Proof. intros H1 H2 k. rewrite lookup_union_is_Some. intros [H|H]; auto. Qed.

Lemma find_selection_by_name_in cfg n s :
  find_selection_by_name cfg n = Some s -> In s (selections cfg) /\ name s = n.
Proof.
  unfold find_selection_by_name. intros Hf. apply find_some in Hf as [Hin Heq].
  apply String.eqb_eq in Heq. done.
Qed.

Lemma wp_extract_fields_of_named cfg query wf :
  wp (fun _ => True) (named_keys cfg) (fun _ => True) False (extract_fields_of cfg query wf).
Proof.
  unfold extract_fields_of. destruct (extract_fields wf) as [fs|]; [|apply wp_ret, named_keys_empty].
  eapply wp_mono; [apply wp_extract_workflow_fields_keys|done| |done|done].
  intros d Hd k Hk. apply Hd in Hk as [[v Hv]|[_ [s Hs]]]; [by rewrite lookup_empty in Hv|].
  exists s. by apply find_selection_by_name_in.
Qed.

Ltac kw_unfold := unfold extract_element_value, field_for_current_page, call_str, call_unit,
  call_handle, call_handles, call_page, call_bool, page_url_of, record,
  navigate_back, click_navigate_extract, handle_click_workflow_by_index, handle_extract_workflow_by_index,
  resolve_href, new_tab_from_link, handle_new_tab_workflow_by_index, execute_workflow_step_by_index,
  handle_click_workflow, handle_extract_workflow, handle_new_tab_workflow, execute_workflow_step,
  is_element_clickable, py_float, opt_named in *.

Ltac kw_step :=
  match goal with
  | |- wp _ _ _ _ (Ret _) => cbn [wp]; cbn beta iota; first [exact I | assumption | apply named_keys_empty]
  | |- wp _ _ _ _ (Throw _) => exact I
  | |- wp _ _ _ _ (Call _ _) => cbn [wp]; split; [exact I | intros ?]
  | |- wp _ _ _ _ (extract_fields_of ?c _ _ ≫= _) =>
      apply (wp_bind _ (named_keys c));
      [eapply wp_mono; [apply wp_extract_fields_of_named|..]; done | intros ? ?]
  | |- wp _ _ _ _ (_ ≫= _) => apply (wp_bind _ (fun _ => True)); [| intros ? _]
  | |- wp _ _ _ _ (catch _ _) => apply (wp_catch _ _ (fun _ => True)); [| intros ? _]
  | |- wp _ _ _ _ (finally _ _) => apply wp_finally
  | |- wp _ _ _ _ (let _ := _ in _) => cbv zeta
  | |- wp _ _ _ _ (match ?x with _ => _ end) => destruct x
  | |- wp _ _ _ _ (if ?x then _ else _) => destruct x
  end.

Lemma wp_execute_workflow_step_by_index_named cfg i wf :
  wp (fun _ => True) (opt_named cfg) (fun _ => True) False (execute_workflow_step_by_index cfg i wf).
Proof. kw_unfold. repeat first [kw_step | progress kw_unfold]. Qed.

Lemma wp_execute_workflow_step_named cfg item wf :
  wp (fun _ => True) (opt_named cfg) (fun _ => True) False (execute_workflow_step cfg item wf).
Proof. kw_unfold. repeat first [kw_step | progress kw_unfold]. Qed.

Lemma wp_execute_workflows_loop_named cfg i wfs acc :
  named_keys cfg acc ->
  wp (fun _ => True) (named_keys cfg) (fun _ => False) False (execute_workflows_loop cfg i wfs acc).
Proof.
  revert acc; induction wfs as [|wf wfs IH]; intros acc Hacc; cbn [execute_workflows_loop]; [done|].
  apply (wp_bind _ (opt_named cfg)).
  - apply (wp_catch _ _ (fun _ => True)); [apply wp_execute_workflow_step_by_index_named|].
    intros; by apply wp_ret.
  - intros [d|] Hd; apply IH; [by apply named_keys_union|done].
Qed.

Lemma wp_execute_workflows_el_loop_named cfg item wfs acc :
  named_keys cfg acc ->
  wp (fun _ => True) (named_keys cfg) (fun _ => False) False (execute_workflows_el_loop cfg item wfs acc).
Proof.
  revert acc; induction wfs as [|wf wfs IH]; intros acc Hacc; cbn [execute_workflows_el_loop]; [done|].
  apply (wp_bind _ (opt_named cfg)).
  - apply (wp_catch _ _ (fun _ => True)); [apply wp_execute_workflow_step_named|].
    intros; by apply wp_ret.
  - intros [d|] Hd; apply IH; [by apply named_keys_union|done].
Qed.

Lemma wp_execute_workflows_by_index_named cfg i :
  wp (fun _ => True) (named_keys cfg) (fun _ => False) False (execute_workflows_by_index cfg i).
Proof.
  unfold execute_workflows_by_index. case_match; [|apply wp_ret, named_keys_empty].
  apply wp_execute_workflows_loop_named, named_keys_empty.
Qed.

(** X6: Both workflow executors return a dict whatever the browser does: no
    exception escapes them (each step runs under [try]/[except]), and every
    key of the dict is the name of a selection of the configuration. *)
Theorem workflow_executors_total cfg i item orc h :
  (exists d, (run orc h (execute_workflows_by_index cfg i)).2 = Done d /\ named_keys cfg d) /\
  (exists d, (run orc h (execute_workflows cfg item)).2 = Done d /\ named_keys cfg d).
Proof.
  split.
  - destruct (wp_run _ _ _ _ _ orc h (wp_execute_workflows_by_index_named cfg i)) as [_ Ho].
    destruct (run orc h _).2; [by eexists|done|done].
  - assert (Hw := wp_execute_workflows_el_loop_named cfg item (workflows cfg) ∅ (named_keys_empty cfg)).
    destruct (wp_run _ _ _ _ _ orc h Hw) as [_ Ho]. unfold execute_workflows.
    destruct (run orc h _).2; [by eexists|done|done].
Qed.

Lemma wp_extract_item_fields_named cfg item cur sels acc :
  (forall s, In s sels -> In s (selections cfg)) -> named_keys cfg acc ->
  wp (fun _ => True) (named_keys cfg) (fun _ => True) True (extract_item_fields item cur sels acc).
Proof.
  revert acc; induction sels as [|s sels IH]; intros acc Hs Hacc; cbn [extract_item_fields]; [done|].
  assert (Hs' : forall s', In s' sels -> In s' (selections cfg)) by (intros; apply Hs; by right).
  destruct (negb _); [by apply IH|].
  apply (wp_bind _ (fun _ => True)); [eapply wp_mono; [apply wp_true|..]; done|].
  intros b _. destruct (negb b); [by apply IH|].
  apply (wp_bind _ (fun _ => True)); [eapply wp_mono; [apply wp_true|..]; done|].
  intros v _. apply IH; [done|]. apply (named_keys_insert _ s); [apply Hs; by left|done|done].
Qed.

Lemma wp_process_item_named cfg i item :
  wp (fun _ => True) (fun r => named_keys cfg (data r)) (fun _ => True) True (process_item cfg i item).
Proof.
  unfold process_item, extract_item_data.
  apply (wp_bind _ (named_keys cfg)).
  { apply wp_true_bind. intros cur. apply wp_extract_item_fields_named; [done|apply named_keys_empty]. }
  intros d Hd. apply (wp_bind _ (named_keys cfg)).
  { destruct (workflows cfg); [by apply wp_ret|].
    apply (wp_bind _ (named_keys cfg)).
    - eapply wp_mono; [apply wp_execute_workflows_by_index_named|..]; done.
    - intros wd Hwd. apply wp_ret. by apply named_keys_union. }
  intros d' Hd'. apply wp_true_bind; intros u. apply wp_true_bind; intros t. by apply wp_ret.
Qed.

Lemma wp_items_loop_named cfg its i rem :
  wp (fun _ => True) (Forall (fun r => named_keys cfg (data r))) (fun _ => True) True
    (items_loop cfg its i rem).
Proof.
  revert i; induction rem as [|rem IH]; intros i; cbn [items_loop]; [by apply wp_ret|].
  apply wp_true_bind; intros items. destruct (_ <=? _); [by apply wp_ret|].
  destruct (items !! i) as [item|]; [|done].
  apply (wp_bind _ (fun r => named_keys cfg (data r))); [apply wp_process_item_named|].
  intros r Hr. apply (wp_bind _ (Forall (fun r => named_keys cfg (data r)))); [apply IH|].
  intros rest Hrest. apply wp_ret. by constructor.
Qed.

Lemma wp_extract_page_data_named cfg :
  wp (fun _ => True) (Forall (fun r => named_keys cfg (data r))) (fun _ => True) True
    (extract_page_data cfg).
Proof.
  unfold extract_page_data. case_match; [|by apply wp_ret].
  apply wp_true_bind; intros items. apply wp_items_loop_named.
Qed.

Lemma wp_crawl_loop_named cfg fuel q coll :
  Forall (fun r => named_keys cfg (data r)) coll ->
  wp (fun _ => True) (Forall (fun r => named_keys cfg (data r))) (fun _ => True) True
    (crawl_loop cfg fuel q coll).
Proof.
  revert q coll; induction fuel as [|f IH]; intros q coll Hc; cbn [crawl_loop]; [done|].
  apply wp_true_bind; intros url. apply wp_true_bind; intros [].
  apply (wp_bind _ (Forall (fun r => named_keys cfg (data r)))); [apply wp_extract_page_data_named|].
  intros rs Hrs. assert (Hall : Forall (fun r => named_keys cfg (data r)) (app coll rs))
    by (apply Forall_app; auto).
  destruct (max_pages_reached cfg q); [by apply wp_ret|].
  apply wp_true_bind; intros adv. destruct (negb adv); [by apply wp_ret|].
  by apply IH.
Qed.

(** X7: Every key of the data of every result, of a page and of a whole crawl,
    is the name of a selection of the configuration: a data field's name or
    a workflow field that a selection carries. *)
Theorem result_keys_are_selection_names cfg fuel orc h :
  match (run orc h (extract_page_data cfg)).2 with
  | Done rs => Forall (fun r => named_keys cfg (data r)) rs
  | _ => True
  end /\
  match (run orc h (crawl_with_workflows cfg fuel)).2 with
  | Done rs => Forall (fun r => named_keys cfg (data r)) rs
  | _ => True
  end.
Proof.
  split.
  - destruct (wp_run _ _ _ _ _ orc h (wp_extract_page_data_named cfg)) as [_ Ho].
    by destruct (run orc h _).2.
  - assert (Hw : wp (fun _ => True) (Forall (fun r => named_keys cfg (data r))) (fun _ => True) True
                   (crawl_with_workflows cfg fuel)).
    { unfold crawl_with_workflows. apply wp_true_bind; intros [].
      apply wp_true_bind; intros []. by apply wp_crawl_loop_named. }
    destruct (wp_run _ _ _ _ _ orc h Hw) as [_ Ho]. by destruct (run orc h _).2.
Qed.

Lemma wp_items_loop_length cfg its i rem :
  wp (fun _ => True) (fun rs => List.length rs <= rem) (fun _ => True) True (items_loop cfg its i rem).
Proof.
  revert i; induction rem as [|rem IH]; intros i; cbn [items_loop]; [by apply wp_ret|].
  apply wp_true_bind; intros items. destruct (_ <=? _); [apply wp_ret; cbn; lia|].
  destruct (items !! i) as [item|]; [|done].
  apply wp_true_bind; intros r. apply (wp_bind _ (fun rs => List.length rs <= rem)); [apply IH|].
  intros rest Hrest. apply wp_ret. cbn. lia.
Qed.

(** X8: [_extract_page_data] with an items selector first queries the items,
    and returns at most one result per item of that first query, however
    the page changes during the loop. *)
Theorem page_results_at_most_items cfg its orc h :
  get_items_selector cfg = Some its ->
  match run orc h (extract_page_data cfg) with
  | (t, Done rs) => exists items t', t = (PQueryAll main_page (selector its), Some (RHandles items)) :: t' /\
                                     List.length rs <= List.length items
  | _ => True
  end.
Proof.
  intros Hits. unfold extract_page_data. rewrite Hits. unfold call_handles. rewrite bind_call.
  cbn [run]. destruct (orc h _) as [[]|] eqn:Ho; cbn [run fst snd]; try done.
  rewrite bind_ret.
  match goal with |- context [run orc ?h' (items_loop cfg its 0 ?n)] =>
    destruct (wp_run _ _ _ _ _ orc h' (wp_items_loop_length cfg its 0 n)) as [_ Hout];
    destruct (run orc h' (items_loop cfg its 0 n)) as [t [rs| |]] end; try done.
  cbn. eauto.
Qed.

Lemma page_results_at_most_items_witness :
  get_items_selector cfg_ghost = Some its_row /\
  match run orc_ghost [] (extract_page_data cfg_ghost) with
  | (t, Done rs) => exists items t', t = (PQueryAll main_page (selector its_row), Some (RHandles items)) :: t' /\
                                     List.length rs <= List.length items
  | _ => True
  end.
Proof. split; [reflexivity|exact (page_results_at_most_items cfg_ghost its_row orc_ghost [] eq_refl)]. Defined.

Lemma wp_core_item_fields item fields acc :
  wp (fun _ => True)
     (fun d => forall k, is_Some (d !! k) <-> is_Some (acc !! k) \/ k ∈ core_fields fields)
     (fun _ => False) False (core_item_fields item fields acc).
Proof.
  revert acc; induction fields as [|[fn fsel] fields IH]; intros acc; cbn [core_item_fields].
  { apply wp_ret. intros k. unfold core_fields. cbn. rewrite elem_of_nil. tauto. }
  destruct (String.eqb fn "items") eqn:Hfn.
  - eapply wp_mono; [apply IH|done| |done|done]. intros d Hd k. cbn beta in Hd |- *. rewrite Hd.
    unfold core_fields. cbn [map fst List.filter]. rewrite Hfn. done.
  - apply (wp_bind _ (fun _ => True)).
    + apply (wp_catch _ _ (fun _ => True)); [|intros; by apply wp_ret].
      apply (wp_bind _ (fun _ => True)); [apply wp_call_handle; done|].
      intros [el|] _; [apply wp_call_str; done|by apply wp_ret].
    + intros v _. eapply wp_mono; [apply IH|done| |done|done]. intros d Hd k. cbn beta in Hd |- *. rewrite Hd.
      unfold core_fields. cbn [map fst List.filter]. rewrite Hfn. cbn [negb].
      rewrite lookup_insert_is_Some', elem_of_cons. naive_solver.
Qed.

Lemma core_item_dict_empty (d : Dict) sels :
  (forall k, is_Some (d !! k) <-> is_Some ((∅ : Dict) !! k) \/ k ∈ core_fields sels) ->
  d = ∅ <-> core_fields sels = [].
Proof.
  intros Hd. split.
  - intros ->. destruct (core_fields sels) as [|k ks] eqn:Hf; [done|].
    destruct (proj2 (Hd k)) as [v Hv]; [right; by left|]. by rewrite lookup_empty in Hv.
  - intros Hf. apply map_empty. intros k. destruct (d !! k) eqn:Hk; [|done].
    destruct (proj1 (Hd k) (mk_is_Some _ _ Hk)) as [[v Hv]|Hin];
      [by rewrite lookup_empty in Hv|]. rewrite Hf in Hin. by apply elem_of_nil in Hin.
Qed.

Lemma wp_core_items sels items :
  wp (fun _ => True)
     (fun ds => Forall (fun d => forall k, is_Some (d !! k) <-> k ∈ core_fields sels) ds /\
                List.length ds = match core_fields sels with [] => 0 | _ => List.length items end)
     (fun _ => False) False (core_items sels items).
Proof.
  induction items as [|item items IH]; cbn [core_items].
  { apply wp_ret. split; [done|]. by destruct (core_fields sels). }
  eapply wp_bind; [apply wp_core_item_fields|]. intros d Hd. cbn beta in Hd.
  eapply wp_bind; [apply IH|]. intros ds [Hall Hlen]. apply wp_ret.
  pose proof (core_item_dict_empty d sels Hd) as He.
  destruct (bool_decide (d = ∅)) eqn:Hb.
  - apply bool_decide_eq_true in Hb. split; [done|]. rewrite Hlen.
    apply He in Hb. by rewrite Hb.
  - apply bool_decide_eq_false in Hb. split.
    + constructor; [|done]. intros k. rewrite Hd, lookup_empty. split; [intros [?|?]; [by destruct H|done]|by right].
    + cbn [List.length]. rewrite Hlen. destruct (core_fields sels) eqn:Hf; [|done].
      exfalso. by apply Hb, He.
Qed.

(** X12: [PaginatedCrawler.extract_data_from_page]: once the items are found,
    the item loop never raises, and each item gets a dict whose keys are
    exactly the selector names other than ["items"]; every item is kept
    when there is such a name, and none when there is not.  The method can
    only raise at its first query of the items, and then makes no other
    call. *)
Theorem core_extract_data_from_page_shape sels items orc h :
  (exists ds, (run orc h (core_items sels items)).2 = Done ds /\
     Forall (fun d => forall k, is_Some (d !! k) <-> k ∈ core_fields sels) ds /\
     List.length ds = match core_fields sels with [] => 0 | _ => List.length items end) /\
  match run orc h (core_extract_data_from_page sels) with
  | (_, Done ds) => Forall (fun d => forall k, is_Some (d !! k) <-> k ∈ core_fields sels) ds
  | (t, Raised _) => exists s r, selectors_get "items" sels = Some s /\ t = [(PQueryAll main_page s, r)]
  | (_, Stalled) => False
  end.
Proof.
  split.
  { destruct (wp_run _ _ _ _ _ orc h (wp_core_items sels items)) as [_ Ho].
    destruct (run orc h _).2; [by eexists|done|done]. }
  unfold core_extract_data_from_page.
  destruct (selectors_get "items" sels) as [s|] eqn:Hs; [|by cbn].
  destruct (negb _); [by cbn|]. unfold call_handles. rewrite bind_call. cbn [run].
  destruct (orc h _) as [[]|] eqn:Ho; rewrite ?bind_ret, ?bind_throw; cbn [run fst snd];
    try by eauto.
  match goal with |- context [run orc ?h' (core_items sels ?its)] =>
    destruct (wp_run _ _ _ _ _ orc h' (wp_core_items sels its)) as [_ Hout];
    destruct (run orc h' (core_items sels its)) as [t [ds| |]] end; try done.
  cbn. by destruct Hout.
Qed.

Lemma wp_find_matching_total o els :
  wp (fun _ => True) (fun _ => True) (fun _ => True) False (find_matching_pagination o els).
Proof.
  induction els as [|e els IH]; cbn [find_matching_pagination]; [done|].
  apply (wp_bind _ (fun _ => True)); [apply wp_call_str; done|].
  intros [t|] _; [|done]. repeat case_match; done.
Qed.

Ltac cn_step :=
  match goal with
  | |- wp _ _ _ _ (Ret _) => cbn [wp]; cbn beta iota; first [exact I | reflexivity]
  | |- wp _ _ _ _ (Throw _) => exact I
  | |- wp _ _ _ _ (Call _ _) => cbn [wp]; split; [exact I | intros ?]
  | |- wp _ _ _ _ (find_matching_pagination _ _) =>
      eapply wp_mono; [apply wp_find_matching_total|..]; done
  | |- wp _ _ _ _ (_ ≫= _) => apply (wp_bind _ (fun _ => True)); [| intros ? _]
  | |- wp _ _ _ _ (catch _ _) => apply (wp_catch _ _ (fun _ => True)); [| intros ? _]
  | |- wp _ _ _ _ (let _ := _ in _) => cbv zeta
  | |- wp _ _ _ _ (match ?x with _ => _ end) => destruct x
  | |- wp _ _ _ _ (if ?x then _ else _) => destruct x
  end.

Lemma wp_core_navigate cfg p :
  wp (fun _ => True) (fun r : bool * Z => r.2 = if r.1 then (p + 1)%Z else p) (fun _ => False) False
    (core_navigate_to_next_page cfg p).
Proof.
  unfold core_navigate_to_next_page.
  repeat first [cn_step | progress unfold call_str, call_unit, call_handles, call_bool,
                  is_element_clickable, py_float].
Qed.

(** X13: [PaginatedCrawler.navigate_to_next_page] never raises, and the page
    counter it returns is one more than before exactly when it reports
    success, and unchanged otherwise. *)
Theorem core_navigate_counter cfg p orc h :
  exists b : bool, (run orc h (core_navigate_to_next_page cfg p)).2 = Done (b, if b then (p + 1)%Z else p).
Proof.
  destruct (wp_run _ _ _ _ _ orc h (wp_core_navigate cfg p)) as [_ Ho].
  destruct (run orc h _).2 as [[b p']| |]; [|done|done]. cbn in Ho. subst. by exists b.
Qed.

Lemma wp_core_crawl_loop cfg sels N fuel cp coll :
  core_max_pages cfg = Some N -> (1 <= cp <= N)%Z ->
  wp (fun _ => True) (fun r : list Dict * Z => (1 <= r.2 <= N)%Z) (fun _ => True) True
    (core_crawl_loop cfg sels fuel cp coll).
Proof.
  intros HN. revert cp coll; induction fuel as [|f IH]; intros cp coll Hcp;
    cbn [core_crawl_loop]; [done|].
  apply wp_true_bind; intros page_data. unfold core_max_pages_reached. rewrite HN.
  destruct (negb (N =? 0)%Z && (N <=? cp)%Z) eqn:Hr; [by apply wp_ret|].
  assert (Hlt : (cp < N)%Z).
  { apply andb_false_iff in Hr as [Hr|Hr]; [apply negb_false_iff, Z.eqb_eq in Hr; lia|].
    apply Z.leb_gt in Hr. lia. }
  apply (wp_bind _ (fun r : bool * Z => r.2 = if r.1 then (cp + 1)%Z else cp)).
  { eapply wp_mono; [apply wp_core_navigate|..]; done. }
  intros [ok cp'] Hok. cbn in Hok. destruct ok; cbn [negb].
  - apply IH. lia.
  - apply wp_ret. cbn. lia.
Qed.

(** X14: [PaginatedCrawler.crawl] with a positive [max_pages], on a fresh
    crawler: when it returns, [self.current_page] is between 1 and
    [max_pages]. *)
Theorem core_crawl_page_bound cfg sels fuel N orc h :
  core_max_pages cfg = Some N -> (1 <= N)%Z ->
  match (run orc h (core_crawl cfg sels fuel)).2 with
  | Done (_, cp) => (1 <= cp <= N)%Z
  | _ => True
  end.
Proof.
  intros HN H1.
  assert (Hw : wp (fun _ => True) (fun r : list Dict * Z => (1 <= r.2 <= N)%Z) (fun _ => True) True
                 (core_crawl cfg sels fuel)).
  { unfold core_crawl. apply wp_true_bind; intros []. apply wp_true_bind; intros [].
    apply wp_core_crawl_loop; [done|lia]. }
  destruct (wp_run _ _ _ _ _ orc h Hw) as [_ Ho].
  destruct (run orc h _).2 as [[]| |]; done.
Qed.

Lemma core_crawl_page_bound_witness :
  core_max_pages (mk_core_config "https://x.com/list" (Some "a.page") (Some "Next") (Some 2%Z) 0%Z) = Some 2%Z /\
  (1 <= 2)%Z /\
  match (run orc_pages [] (core_crawl (mk_core_config "https://x.com/list" (Some "a.page") (Some "Next") (Some 2%Z) 0%Z)
                               [("items", ".row"); ("title", ".t")] 5)).2 with
  | Done (_, cp) => (1 <= cp <= 2)%Z
  | _ => True
  end.
Proof.
  split; [reflexivity|split; [lia|]].
  apply (core_crawl_page_bound (mk_core_config "https://x.com/list" (Some "a.page") (Some "Next") (Some 2%Z) 0%Z)
           [("items", ".row"); ("title", ".t")] 5 2%Z orc_pages []); [reflexivity|lia].
Defined.

Lemma clicks_app t1 t2 : clicks (t1 ++ t2)%list = clicks t1 + clicks t2.
Proof. induction t1 as [|[o r] t1 IH]; [done|]. destruct o; cbn; rewrite ?IH; lia. Qed.

Lemma clicks_ext_read tr tr' : ext_by read_op tr tr' -> clicks tr' = clicks tr.
Proof.
  intros [ext [-> He]]. rewrite clicks_app.
  induction He as [|[o r] ext Ho _ IH]; [cbn; lia|]. destruct o; cbn in *; done.
Qed.

Lemma wp_find_matching_read o els :
  wp read_op (fun _ => True) (fun _ => True) False (find_matching_pagination o els).
Proof.
  induction els as [|e els IH]; cbn [find_matching_pagination]; [done|].
  apply (wp_bind _ (fun _ => True)); [apply wp_call_str; done|].
  intros [t|] _; [|done]. repeat case_match; done.
Qed.

Ltac ck := rewrite ?clicks_app in *; cbn [clicks] in *; lia.

Ltac ck_leaf := cbn [wph]; cbn beta iota; first [ split; [ck | intros; first [discriminate | ck]] | ck ].

Lemma wph_read_bind {A B} (m : Drv A) (f : A -> Drv B) Q E tr :
  wp read_op (fun _ => True) (fun _ => True) False m -> clicks tr = 0 ->
  (forall tr', clicks tr' <= 1 -> E tr') ->
  (forall tr' a, clicks tr' = 0 -> wph (fun _ _ => True) Q (fun tr _ => E tr) (fun _ => False) tr' (f a)) ->
  wph (fun _ _ => True) Q (fun tr _ => E tr) (fun _ => False) tr (m ≫= f).
Proof.
  intros Hm H0 HE Hf. apply (wph_bind _ (fun tr' _ => clicks tr' = 0)); [|auto].
  eapply wph_of_wp; [exact Hm|done| | |by intros ? ? []].
  - intros tr' _ Hx _. by rewrite (clicks_ext_read _ _ Hx).
  - intros tr' _ Hx _. apply HE. rewrite (clicks_ext_read _ _ Hx). lia.
Qed.

Lemma wph_navigate_clicks cfg tr :
  clicks tr = 0 ->
  wph (fun _ _ => True) (fun tr b => clicks tr <= 1 /\ (b = true -> clicks tr = 1))
      (fun tr _ => clicks tr <= 1) (fun _ => False) tr (navigate_to_next_page cfg).
Proof.
  intros H0. unfold navigate_to_next_page. destruct (pagination_config cfg) as [pc|]; [|ck_leaf].
  apply (wph_catch _ _ (fun tr _ => clicks tr <= 1)); [|intros tr' e He; ck_leaf].
  unfold call_handles. wph_call0; [exact I|].
  intros [[| | | |els]|]; wph_reduce; try ck_leaf.
  destruct els as [|first rest]; [ck_leaf|].
  apply (wph_bind _ (fun tr' _ => clicks tr' = 0)).
  { destruct (Py.truthy _).
    - eapply wph_of_wp; [apply wp_find_matching_read|done| | |by intros ? ? []].
      + intros tr' _ Hx _. rewrite (clicks_ext_read _ _ Hx). ck.
      + intros tr' _ Hx _. rewrite (clicks_ext_read _ _ Hx). ck.
    - apply wph_ret. ck. }
  intros tr1 [el|] H1; [|ck_leaf].
  apply wph_read_bind; [eapply wp_mono; [apply wp_is_element_clickable|..]; done|ck|cbn; auto|].
  intros tr2 ok H2. destruct (negb ok); [ck_leaf|].
  unfold call_str. wph_call0; [exact I|].
  intros [[| |[t|]| |]|]; wph_reduce; try ck_leaf.
  apply wph_call_unit_bind; [exact I| intros rc | ck].
  apply wph_call_unit_bind; [exact I| intros rw | ck].
  apply wph_call_unit_bind; [exact I| intros rs | ck].
  ck_leaf.
Qed.

Lemma wph_core_navigate_clicks cfg p tr :
  clicks tr = 0 ->
  wph (fun _ _ => True) (fun tr r => clicks tr <= 1 /\ (r.1 = true -> clicks tr = 1))
      (fun tr _ => clicks tr <= 1) (fun _ => False) tr (core_navigate_to_next_page cfg p).
Proof.
  intros H0. unfold core_navigate_to_next_page. destruct (pagination_selector cfg) as [ps|]; [|ck_leaf].
  destruct (negb _); [ck_leaf|].
  apply (wph_catch _ _ (fun tr _ => clicks tr <= 1)); [|intros tr' e He; ck_leaf].
  unfold call_handles. wph_call0; [exact I|].
  intros [[| | | |els]|]; wph_reduce; try ck_leaf.
  destruct els as [|first rest]; [ck_leaf|].
  apply (wph_bind _ (fun tr' _ => clicks tr' = 0)).
  { destruct (Py.truthy _).
    - apply wph_read_bind; [apply wp_find_matching_read|ck|cbn; auto|].
      intros tr' m Hm. apply wph_ret. done.
    - apply wph_ret. ck. }
  intros tr1 el H1.
  apply wph_read_bind; [eapply wp_mono; [apply wp_is_element_clickable|..]; done|ck|cbn; auto|].
  intros tr2 ok H2. destruct (negb ok); [ck_leaf|].
  unfold call_str. wph_call0; [exact I|].
  intros [[| |t| |]|]; wph_reduce; try ck_leaf.
  apply wph_call_unit_bind; [exact I| intros rc | ck].
  apply wph_call_unit_bind; [exact I| intros rw | ck].
  apply wph_call_unit_bind; [exact I| intros rs | ck].
  ck_leaf.
Qed.

Lemma clicks_outcome {A} (m : Drv A) orc h (ok : A -> bool) :
  wph (fun _ _ => True) (fun tr a => clicks tr <= 1 /\ (ok a = true -> clicks tr = 1))
      (fun tr _ => clicks tr <= 1) (fun _ => False) [] m ->
  clicks (run orc h m).1 <= 1 /\
  (forall a, (run orc h m).2 = Done a -> ok a = true -> clicks (run orc h m).1 = 1).
Proof.
  intros Hw. destruct (wph_run _ _ _ _ [] _ orc h Hw) as [_ Ho].
  destruct (run orc h m) as [t o]. cbn [fst snd app] in *.
  destruct o as [a|e|]; [|split; [done|discriminate]|done].
  destruct Ho as [Hle Ht]. split; [done|]. intros a' Ha. injection Ha as <-. exact Ht.
Qed.

(** X10: Both pagination controllers click at most one element per call, and
    report success only after exactly one click. *)
Theorem pagination_single_click cfg ccfg p orc h :
  (clicks (run orc h (navigate_to_next_page cfg)).1 <= 1 /\
   ((run orc h (navigate_to_next_page cfg)).2 = Done true ->
    clicks (run orc h (navigate_to_next_page cfg)).1 = 1)) /\
  (clicks (run orc h (core_navigate_to_next_page ccfg p)).1 <= 1 /\
   (forall p', (run orc h (core_navigate_to_next_page ccfg p)).2 = Done (true, p') ->
    clicks (run orc h (core_navigate_to_next_page ccfg p)).1 = 1)).
Proof.
  split.
  - destruct (clicks_outcome _ orc h (fun b => b) (wph_navigate_clicks cfg [] eq_refl)) as [H1 H2].
    split; [done|]. intros Hd. by apply (H2 true).
  - destruct (clicks_outcome _ orc h fst (wph_core_navigate_clicks ccfg p [] eq_refl)) as [H1 H2].
    split; [done|]. intros p' Hd. by apply (H2 (true, p')).
Qed.

Lemma or_default_nonempty d s : s <> "" -> WorkflowBuilder.or_default d s <> "".
Proof.
  unfold WorkflowBuilder.or_default, Py.truthy. destruct (String.eqb d "") eqn:Hd; cbn; [done|].
  intros _ ->. discriminate.
Qed.

Lemma apply_call_ok b c :
  Forall built_step_ok (WorkflowBuilder.steps b) ->
  Forall built_step_ok (WorkflowBuilder.steps (WorkflowBuilder.apply_call b c)) /\
  List.length (WorkflowBuilder.steps (WorkflowBuilder.apply_call b c)) = S (List.length (WorkflowBuilder.steps b)).
Proof.
  intros Hb. destruct c as [i s fs d|i s fs d|i s fs d]; cbn;
    (split; [apply Forall_app; split; [done|]; constructor; [|constructor] | rewrite length_app; cbn; lia]);
    (split; [apply or_default_nonempty; by destruct s|]);
    (split; [done|]); (split; [done|]); (split; [done|]);
    intros cfg i'; unfold execute_workflow_step_by_index; cbn; auto.
Qed.

(** X11: A workflow made with [WorkflowBuilder] has one step per call, and each
    step has a non-empty description, a list of fields, the
    ["networkidle"] wait and no wait selector, and an action the step
    dispatcher handles: [_execute_workflow_step_by_index] runs the click,
    extract or new-tab handler, never its unknown-action branch. *)
Theorem workflow_builder_steps cs :
  List.length (WorkflowBuilder.build_calls cs) = List.length cs /\
  Forall built_step_ok (WorkflowBuilder.build_calls cs).
Proof.
  unfold WorkflowBuilder.build_calls, WorkflowBuilder.build.
  rewrite <- (Nat.add_0_r (List.length cs)).
  change 0 with (List.length (WorkflowBuilder.steps WorkflowBuilder.init)).
  assert (H0 : Forall built_step_ok (WorkflowBuilder.steps WorkflowBuilder.init)) by constructor.
  revert H0. generalize WorkflowBuilder.init as b.
  induction cs as [|c cs IH]; intros b Hb; cbn [fold_left]; [done|].
  destruct (apply_call_ok b c Hb) as [Hok Hlen].
  destruct (IH _ Hok) as [IH1 IH2]. split; [|done]. rewrite IH1, Hlen. cbn. lia.
Qed.

Lemma wp_extract_item_fields_exact item cur sels acc :
  wp (fun _ => True)
     (fun d => existsb (field_scope_error cur) sels = false /\
               forall k, is_Some (d !! k) <->
                         is_Some (acc !! k) \/ k ∈ map name (List.filter (field_in_scope cur) sels))
     (fun e => e = ValueError /\ existsb (field_scope_error cur) sels = true) False
     (extract_item_fields item cur sels acc).
Proof.
  revert acc; induction sels as [|s sels IH]; intros acc; cbn [extract_item_fields].
  { apply wp_ret. split; [done|]. intros k. cbn. rewrite elem_of_nil. tauto. }
  cbn [existsb List.filter].
  assert (Hskip : field_in_scope cur s = false -> field_scope_error cur s = false ->
    wp (fun _ => True)
     (fun d => field_scope_error cur s || existsb (field_scope_error cur) sels = false /\
               forall k, is_Some (d !! k) <->
                         is_Some (acc !! k) \/
                         k ∈ map name (if field_in_scope cur s then s :: List.filter (field_in_scope cur) sels
                                       else List.filter (field_in_scope cur) sels))
     (fun e => e = ValueError /\ field_scope_error cur s || existsb (field_scope_error cur) sels = true) False
     (extract_item_fields item cur sels acc)).
  { intros -> ->. cbn [orb]. apply IH. }
  assert (Hval : field_in_scope cur s = true -> field_scope_error cur s = false ->
    wp (fun _ => True)
     (fun d => field_scope_error cur s || existsb (field_scope_error cur) sels = false /\
               forall k, is_Some (d !! k) <->
                         is_Some (acc !! k) \/
                         k ∈ map name (if field_in_scope cur s then s :: List.filter (field_in_scope cur) sels
                                       else List.filter (field_in_scope cur) sels))
     (fun e => e = ValueError /\ field_scope_error cur s || existsb (field_scope_error cur) sels = true) False
       (value ← catch (element ← call_handle (EQuery item (selector s));
                       match element with
                       | Some el => extract_element_value el s
                       | None => Ret None
                       end) (fun _ => Ret None);
        extract_item_fields item cur sels (<[name s := value]> acc))).
  { intros -> ->. cbn [orb map]. apply (wp_bind _ (fun _ => True)).
    - apply (wp_catch _ _ (fun _ => True)); [|intros; by apply wp_ret].
      apply (wp_bind _ (fun _ => True)); [apply wp_call_handle; done|].
      intros [el|] _; [eapply wp_mono; [apply wp_extract_element_value_total|..]; done|by apply wp_ret].
    - intros v _. eapply wp_mono; [apply IH|done| |done|done].
      intros d [Hn Hd]. split; [done|]. intros k. rewrite Hd, lookup_insert_is_Some', elem_of_cons.
      naive_solver. }
  destruct (String.eqb (element_type s) "data_field") eqn:Hdf; cbn [negb].
  2:{ apply Hskip; unfold field_in_scope, field_scope_error; by rewrite Hdf. }
  destruct (page_url s) as [fpu|] eqn:Hpu.
  2:{ rewrite bind_ret. cbn [negb].
      apply Hval; unfold field_in_scope, field_scope_error; by rewrite Hdf, Hpu. }
  destruct (Py.truthy (Some fpu)) eqn:Htr.
  2:{ rewrite bind_ret. cbn [negb].
      apply Hval; unfold field_in_scope, field_scope_error; by rewrite Hdf, Hpu, Htr. }
  unfold field_for_current_page. destruct (is_field_for_current_page fpu cur) as [b|] eqn:Hf.
  - rewrite bind_ret. destruct b; cbn [negb];
      [apply Hval | apply Hskip]; unfold field_in_scope, field_scope_error; by rewrite Hdf, Hpu, Htr, Hf.
  - rewrite bind_throw. cbn [wp]. split; [done|].
    assert (He : field_scope_error cur s = true)
      by (unfold field_scope_error; by rewrite Hdf, Hpu, Htr, Hf).
    by rewrite He.
Qed.

(** X3: The field loop of [_extract_item_data] on the page [current_url]
    returns a dict whose keys are exactly the names of the data fields in
    scope there (no [page_url], or one [_is_field_for_current_page] accepts);
    no error of the element lookups escapes it.  It raises only a
    [ValueError], exactly when a data field has a [page_url] that
    [urlparse] rejects. *)
Theorem item_data_keys item cur sels orc h :
  match (run orc h (extract_item_fields item cur sels ∅)).2 with
  | Done d => existsb (field_scope_error cur) sels = false /\
              forall k, is_Some (d !! k) <-> k ∈ map name (List.filter (field_in_scope cur) sels)
  | Raised e => e = ValueError /\ existsb (field_scope_error cur) sels = true
  | Stalled => False
  end.
Proof.
  destruct (wp_run _ _ _ _ _ orc h (wp_extract_item_fields_exact item cur sels ∅)) as [_ Ho].
  destruct (run orc h _).2 as [d|e|]; [|done|done].
  destruct Ho as [Hn Hd]. split; [done|]. intros k. rewrite Hd, lookup_empty. split; [|by right].
  intros [[v Hv]|Hk]; [discriminate|done].
Qed.

(** X2: A field recorded on the very page being crawled is in scope there:
    [_is_field_for_current_page u u] is [True] for every URL [urlparse]
    accepts. *)
Theorem field_scope_same_url u p :
  Url.urlparse u = Some p -> is_field_for_current_page u u = Some true.
Proof.
  intros Hu. unfold is_field_for_current_page. rewrite Hu, !String.eqb_refl. done.
Qed.

Lemma field_scope_same_url_witness :
  Url.urlparse "https://x.com/list/7" = Some (Url.mk_parts "https" "x.com" "/list/7") /\
  is_field_for_current_page "https://x.com/list/7" "https://x.com/list/7" = Some true.
Proof.
  split; [reflexivity|].
  exact (field_scope_same_url "https://x.com/list/7" (Url.mk_parts "https" "x.com" "/list/7") eq_refl).
Defined.

Lemma tabs_closed_but_snoc' np tr o r :
  tabs_closed_but np tr -> (not_new_page o \/ forall q, r <> Some (RHandle (Some q))) ->
  tabs_closed_but np (tr ++ [(o, r)])%list.
Proof.
  intros Hc Ho q Hq. apply in_app_iff in Hq as [Hq|[Hq|[]]].
  - destruct (Hc q Hq) as [?|[r' Hr']]; [by left|right; exists r'; apply in_app_iff; by left].
  - injection Hq as -> ->. destruct Ho as [[]|Ho]. by destruct (Ho q).
Qed.

Lemma tabs_closed_but_snoc np tr o r :
  tabs_closed_but np tr -> not_new_page o -> tabs_closed_but np (tr ++ [(o, r)])%list.
Proof. intros Hc Ho. apply tabs_closed_but_snoc'; auto. Qed.

Lemma tabs_closed_but_ext np tr tr' :
  ext_by not_new_page tr tr' -> tabs_closed_but np tr -> tabs_closed_but np tr'.
Proof.
  intros [ext [-> He]]. revert tr. induction He as [|[o r] ext Ho _ IH]; intros tr Hc.
  - by rewrite app_nil_r.
  - cbn in Ho. change ((o, r) :: ext) with ([(o, r)] ++ ext)%list. rewrite app_assoc.
    apply IH. by apply tabs_closed_but_snoc.
Qed.

Lemma wp_extract_fields_of_not_new cfg query wf :
  (forall s, not_new_page (query s)) ->
  wp not_new_page (fun _ => True) (fun _ => True) False (extract_fields_of cfg query wf).
Proof.
  intros Hq. unfold extract_fields_of. destruct (extract_fields wf) as [fs|]; [|done].
  generalize (∅ : Dict) as acc. induction fs as [|f fs IH]; intros acc; cbn [extract_workflow_fields]; [done|].
  apply (wp_bind _ (fun _ => True)); [|intros; apply IH].
  apply (wp_catch _ _ (fun _ => True)); [|intros; by apply wp_ret].
  destruct (find_selection_by_name cfg f) as [s|]; [|by apply wp_ret].
  apply (wp_bind _ (fun _ => True)); [apply wp_call_handle; done|].
  intros [el|] _; [|by apply wp_ret].
  apply (wp_bind _ (fun _ => True)); [|intros; by apply wp_ret].
  unfold extract_element_value. repeat case_match; apply wp_call_str; done.
Qed.

Ltac nt_call :=
  match goal with
  | Hc : tabs_closed_but ?np ?tr |- wph _ _ _ _ ?tr (Call ?o _) =>
      cbn [wph]; split; [exact I|];
      let r := fresh "r" in intros r;
      assert (tabs_closed_but np (tr ++ [(o, r)])%list) by (apply tabs_closed_but_snoc; [exact Hc|exact I])
  end.

Ltac nt_leaf := cbn [wph]; cbn beta; assumption.

Lemma wph_new_tab_from_link_closed cfg tr l wf :
  tabs_closed_but None tr ->
  wph (fun _ _ => True) (fun tr _ => tabs_closed_but None tr) (fun tr _ => tabs_closed_but None tr)
      (fun _ => False) tr (new_tab_from_link cfg l wf).
Proof.
  intros H0. unfold new_tab_from_link, call_str. rewrite bind_call. nt_call.
  destruct r as [[| |[href|]| |]|]; wph_reduce; try nt_leaf.
  destruct (negb _); [nt_leaf|].
  match goal with H : tabs_closed_but None ?t |- _ => clear H0; rename H into H0; set (tr1 := t) in * end.
  apply (wph_bind _ (fun tr _ => tabs_closed_but None tr)).
  { unfold resolve_href. destruct (Py.startswith "/" href).
    - unfold page_url_of. rewrite bind_call. nt_call.
      destruct r as [[| |[base|]| |]|]; wph_reduce; try nt_leaf.
    - apply wph_ret. exact H0. }
  intros tr2 target Hc2. cbn beta in Hc2. unfold call_page. rewrite bind_call.
  cbn [wph]. split; [exact I|].
  intros [[| | |[np|]|]|]; wph_reduce;
    try (apply tabs_closed_but_snoc'; [exact Hc2|right; intros q; discriminate]).
  (* the page [np] is open: every other opened page is closed *)
  set (tr3 := (tr2 ++ [(NewPage, Some (RHandle (Some np)))])%list).
  assert (Hc3 : tabs_closed_but (Some np) tr3).
  { intros q Hq. apply in_app_iff in Hq as [Hq|[Hq|[]]].
    - destruct (Hc2 q Hq) as [?|[r' Hr']]; [done|right; exists r'; apply in_app_iff; by left].
    - injection Hq as ->. by left. }
  apply wph_finally.
  eapply wph_of_wp with (R := not_new_page) (Q0 := fun _ => True) (E0 := fun _ => True) (S0 := False).
  - apply (wp_catch _ _ (fun _ => True)); [|intros; by apply wp_ret].
    unfold call_unit. cbn [wp]. split; [exact I|]. intros [r|]; cbn [wp]; [|done].
    rewrite bind_call. cbn [wp]. split; [exact I|]. intros [r'|]; cbn [wp]; [|done].
    rewrite bind_call. cbn [wp]. split; [exact I|]. intros [r''|]; cbn [wp]; [|done].
    rewrite ?bind_ret. apply (wp_bind _ (fun _ => True)); [|intros; by apply wp_ret].
    by apply wp_extract_fields_of_not_new.
  - done.
  - intros tr4 _ Hx _. unfold call_unit. cbn [wph]. split; [exact I|].
    intros rc. pose proof (tabs_closed_but_ext _ _ _ Hx Hc3) as Hc4.
    assert (Hc5 : tabs_closed_but None (tr4 ++ [(PClose np, rc)])%list).
    { intros q Hq. apply in_app_iff in Hq as [Hq|[Hq|[]]]; [|discriminate].
      right. destruct (Hc4 q Hq) as [Hqe|[r' Hr']].
      - injection Hqe as ->. exists rc. apply in_app_iff. right. by left.
      - exists r'. apply in_app_iff. by left. }
    destruct rc; cbn [wph]; exact Hc5.
  - intros tr4 e Hx _. unfold call_unit. cbn [wph]. split; [exact I|].
    intros rc. pose proof (tabs_closed_but_ext _ _ _ Hx Hc3) as Hc4.
    assert (Hc5 : tabs_closed_but None (tr4 ++ [(PClose np, rc)])%list).
    { intros q Hq. apply in_app_iff in Hq as [Hq|[Hq|[]]]; [|discriminate].
      right. destruct (Hc4 q Hq) as [Hqe|[r' Hr']].
      - injection Hqe as ->. exists rc. apply in_app_iff. right. by left.
      - exists r'. apply in_app_iff. by left. }
    destruct rc; cbn [wph]; exact Hc5.
  - by intros ? ? ?.
Qed.

Lemma wph_handle_new_tab_workflow_by_index_closed cfg tr i wf :
  tabs_closed_but None tr ->
  wph (fun _ _ => True) (fun tr _ => tabs_closed_but None tr) (fun _ _ => False)
      (fun _ => False) tr (handle_new_tab_workflow_by_index cfg i wf).
Proof.
  intros H0. unfold handle_new_tab_workflow_by_index. case_match; [|by apply wph_ret].
  apply (wph_catch _ _ (fun tr _ => tabs_closed_but None tr)); [|intros; by apply wph_ret].
  unfold call_handle. wph_call0; [exact I|].
  intros r. assert (H1 : tabs_closed_but None
    (tr ++ [(PQuery main_page (nth_item_selector e i ++ " " ++ target_selector wf), r)])%list)
    by (apply tabs_closed_but_snoc; [exact H0|exact I]).
  destruct r as [[| | |[l|]|]|]; wph_reduce; try exact H1.
  by apply wph_new_tab_from_link_closed.
Qed.

Lemma wph_handle_new_tab_workflow_closed cfg tr item wf :
  tabs_closed_but None tr ->
  wph (fun _ _ => True) (fun tr _ => tabs_closed_but None tr) (fun _ _ => False)
      (fun _ => False) tr (handle_new_tab_workflow cfg item wf).
Proof.
  intros H0. unfold handle_new_tab_workflow.
  apply (wph_catch _ _ (fun tr _ => tabs_closed_but None tr)); [|intros; by apply wph_ret].
  unfold call_handle. wph_call0; [exact I|].
  intros r. pose proof (tabs_closed_but_snoc None tr (EQuery item (target_selector wf)) r H0 I) as H1.
  destruct r as [[| | |[l|]|]|]; wph_reduce; try exact H1.
  by apply wph_new_tab_from_link_closed.
Qed.

Lemma tabs_closed_but_nil : tabs_closed_but None [].
Proof. by intros q []. Qed.

(** X9: Both open-new-tab handlers always return (they never raise), and every
    page they open with [new_page] is closed again within the same call. *)
Theorem new_tab_handlers_close_their_pages cfg orc h i item wf :
  (exists o, (run orc h (handle_new_tab_workflow_by_index cfg i wf)).2 = Done o) /\
  tabs_closed_but None (run orc h (handle_new_tab_workflow_by_index cfg i wf)).1 /\
  (exists o, (run orc h (handle_new_tab_workflow cfg item wf)).2 = Done o) /\
  tabs_closed_but None (run orc h (handle_new_tab_workflow cfg item wf)).1.
Proof.
  pose proof (proj2 (wph_run _ _ _ _ _ _ orc h
    (wph_handle_new_tab_workflow_by_index_closed cfg [] i wf tabs_closed_but_nil))) as H1.
  pose proof (proj2 (wph_run _ _ _ _ _ _ orc h
    (wph_handle_new_tab_workflow_closed cfg [] item wf tabs_closed_but_nil))) as H2.
  destruct (run orc h (handle_new_tab_workflow_by_index cfg i wf)) as [t1 [o1| |]];
  destruct (run orc h (handle_new_tab_workflow cfg item wf)) as [t2 [o2| |]];
  cbn in H1, H2 |- *; try done.
  eauto 10.
Qed.
